(** * Litton7: the batch classification loop of
      [prediction_Image(Litton-7type-visual-landscape-model).py]

    A shallow embedding of [main] (source lines 183-246) and of the
    top-level folder loop that calls it (lines 250-265), over an explicit
    model of the file system the script reads and mutates; and of what comes
    before them: the argument parser's two methods (lines 19-32) and the
    checks of the model file and of the device (lines 95-137).

    Conventions.
    - Paths and file names are byte strings, joined as [posixpath.join] does.
    - The file system is a finite map from paths to nodes, together with the
      set of paths at which the operating system refuses to create an entry
      (permissions, path too long).
    - An uncaught Python exception is the outcome [Raised]; a caught one is an
      [option] that the handler inspects.
    - The softmax output holds finite floats; they are embedded as rationals
      (every finite float is one, and comparison agrees).  NaN is outside the
      embedding.
    - Console output ([print]) is not recorded, except that evaluating its
      argument may raise. *)

From Stdlib Require Import QArith Ascii DecimalString.
From stdpp Require Import gmap strings list fin_maps sorting.

(** ** Strings and paths *)

Definition is_sep (c : ascii) : bool := Ascii.eqb c "/"%char.

Definition startswith_sep (s : string) : bool :=
  match s with
  | String c _ => is_sep c
  | EmptyString => false
  end.

Fixpoint endswith_sep (s : string) : bool :=
  match s with
  | EmptyString => false
  | String c EmptyString => is_sep c
  | String _ r => endswith_sep r
  end.

(** One turn of the loop of [posixpath.join]. *)
Definition join_step (path b : string) : string :=
  if startswith_sep b then b
  else if String.eqb path "" || endswith_sep path then path +:+ b
  else path +:+ "/" +:+ b.

(** [os.path.join(a, *p)]. *)
Definition path_join (a : string) (p : list string) : string :=
  fold_left join_step p a.

Arguments path_join : simpl never.

(** [p[:i], p[i:]] for [i = p.rfind("/") + 1]. *)
Fixpoint split_last (p : string) : string * string :=
  match p with
  | EmptyString => ("", "")
  | String c r =>
      let '(h, t) := split_last r in
      if negb (String.eqb h "") then (String c h, t)
      else if is_sep c then ("/", r)
      else ("", String c r)
  end.

(** [s.rstrip("/")]. *)
Fixpoint rstrip_sep (s : string) : string :=
  match s with
  | EmptyString => ""
  | String c r =>
      let r' := rstrip_sep r in
      if String.eqb r' "" && is_sep c then "" else String c r'
  end.

(** [posixpath.dirname]. *)
Definition dirname (p : string) : string :=
  let head := fst (split_last p) in
  if String.eqb (rstrip_sep head) "" then head else rstrip_sep head.

(** [posixpath.basename]. *)
Definition basename (p : string) : string := snd (split_last p).

(** [shutil._basename]. *)
Definition shutil_basename (p : string) : string := basename (rstrip_sep p).

(** [s.find(sub)]: the lowest index at which [sub] occurs, [-1] if none. *)
Fixpoint find_from (s sub : string) (k : Z) : Z :=
  if String.prefix sub s then k
  else match s with
       | EmptyString => (-1)%Z
       | String _ r => find_from r sub (k + 1)%Z
       end.

Definition find (s sub : string) : Z := find_from s sub 0%Z.

(** [str(i)] for a non-negative integer. *)
Definition str (i : nat) : string := NilEmpty.string_of_uint (Nat.to_uint i).

(** [s] without the prefix [pre], when it has it. *)
Fixpoint strip_prefix (pre s : string) : option string :=
  match pre, s with
  | EmptyString, _ => Some s
  | String a pre', String b s' =>
      if Ascii.eqb a b then strip_prefix pre' s' else None
  | String _ _, EmptyString => None
  end.

Fixpoint has_sep (s : string) : bool :=
  match s with
  | EmptyString => false
  | String c r => is_sep c || has_sep r
  end.

(** ** Module-level constants (source lines 142-156) *)

Definition labels : list string :=
  [ "0.Panoramic-landscape";
    "1.Feature-landscape";
    "2.Detail-landscape";
    "3.Enclosed-landscape";
    "4.Focal-landscape";
    "5.Ephemeral-landscape";
    "6.Canopied-landscape" ].

Definition labelsnum : list string := map str (seq 0 (length labels)).

Definition img_type : list string := [ ".jpg"; ".bmp"; ".png" ].

(** ** Tables *)

Inductive cell :=
  | CStr (s : string)
  | CNum (q : Q).

(** The [dict] handed to [pd.DataFrame]: column names with their values, in
    insertion order. *)
Definition columns := list (string * list cell).

Definition n_rows (df : columns) : nat :=
  match df with
  | [] => 0
  | (_, c) :: _ => length c
  end.

(** [pd.DataFrame(dict)] raises [ValueError] unless all columns have the same
    length. *)
Definition DataFrame (d : columns) : option columns :=
  if forallb (fun col => Nat.eqb (length (snd col)) (n_rows d)) d
  then Some d else None.

(** ** The file system *)

Inductive node :=
  | Dir
  | File (bytes : string)
  | Table (df : columns).

Record world := World {
  nodes : gmap string node;
  denied : gset string
}.

Definition set_nodes (m : gmap string node) (w : world) : world :=
  World m (denied w).

Definition isdir (w : world) (p : string) : bool :=
  match nodes w !! p with
  | Some Dir => true
  | _ => false
  end.

Definition exists_ (w : world) (p : string) : bool :=
  match nodes w !! p with
  | Some _ => true
  | None => false
  end.

(** The directory that would hold [p] is there; the empty [dirname] is the
    working directory. *)
Definition parent_ok (w : world) (p : string) : bool :=
  String.eqb (dirname p) "" || isdir w (dirname p).

Definition creatable (w : world) (p : string) : bool :=
  parent_ok w p && negb (bool_decide (p ∈ denied w)).

(** [os.mkdir(p)]: [None] stands for [FileExistsError], [FileNotFoundError]
    or [PermissionError]. *)
Definition mkdir (p : string) (w : world) : option world :=
  if exists_ w p then None
  else if creatable w p then Some (set_nodes (<[p := Dir]> (nodes w)) w)
  else None.

(** The bytes of a regular file, as [open(p, "rb").read()] gives them;
    [None] for a directory, a missing path or a report table. *)
Definition read_file (w : world) (p : string) : option string :=
  match nodes w !! p with
  | Some (File b) => Some b
  | _ => None
  end.

Definition child_prefix (p : string) : string := join_step p "".

Definition child_name (p k : string) : option string :=
  match strip_prefix (child_prefix p) k with
  | Some n => if String.eqb n "" || has_sep n then None else Some n
  | None => None
  end.

(** [os.listdir(p)], in the arbitrary order of the map. *)
Definition listdir (p : string) (w : world) : option (list string) :=
  if isdir w p
  then Some (omap (fun kv => child_name p (fst kv)) (map_to_list (nodes w)))
  else None.

(** [list.sort()] on strings: by code point, which for UTF-8 byte strings is
    byte order. *)
Definition sort (l : list string) : list string :=
  merge_sort (fun x y => Is_true (String.leb x y)) l.

Definition under (src k : string) : bool :=
  String.eqb k src || String.prefix (src +:+ "/") k.

Definition rekey (src dst k : string) : string :=
  if String.eqb k src then dst
  else if String.prefix (src +:+ "/") k
       then dst +:+ String.substring (String.length src)
                                    (String.length k - String.length src) k
       else k.

(** [os.rename] of a directory: the whole subtree changes its prefix. *)
Definition rename_tree (src dst : string) (m : gmap string node)
  : gmap string node :=
  list_to_map (map (fun kv => (rekey src dst (fst kv), snd kv)) (map_to_list m)).

(** [shutil.move(src, dst)]. *)
Definition move (src dst : string) (w : world) : option world :=
  let real_dst :=
    if isdir w dst then path_join dst [shutil_basename src] else dst in
  if isdir w dst && exists_ w real_dst then None
  else
    match nodes w !! src with
    | None => None
    | Some Dir =>
        if exists_ w real_dst || negb (creatable w real_dst)
           || under src real_dst
        then None
        else Some (set_nodes (rename_tree src real_dst (nodes w)) w)
    | Some n =>
        if isdir w real_dst || negb (creatable w real_dst) then None
        else Some (set_nodes (<[real_dst := n]> (delete src (nodes w))) w)
    end.

(** [df.to_csv(path, ...)]: creates or truncates a regular file. *)
Definition to_csv (path : string) (df : columns) (w : world) : option world :=
  if isdir w path || negb (creatable w path) then None
  else Some (set_nodes (<[path := Table df]> (nodes w)) w).

(** ** The external pipeline stages

    The decoder, the transform and the network are collaborators of the
    script; each is a function that may raise ([None]).  [softmax] yields the
    rows of the normalised output tensor. *)

Class Stages := {
  image : Type;
  tensor : Type;
  (** [Image.open(name).convert("RGB")], on the bytes of the file *)
  Image_open : string -> option image;
  (** [preprocess(img_pil).to(args.device)] and [unsqueeze_(0)] *)
  preprocess : image -> option tensor;
  (** [model(Variable(img_tensor))] *)
  model : tensor -> option tensor;
  (** [F.softmax(fc_out, dim=1)] *)
  softmax : tensor -> option (list (list Q))
}.

(** ** Outcomes of a statement sequence *)

(** [Returned a]: control reached the end.  [Raised w]: an exception left the
    sequence uncaught, with the file system in state [w]. *)
Inductive outcome (A : Type) :=
  | Returned (a : A)
  | Raised (w : world).

Arguments Returned {A} a.
Arguments Raised {A} w.

(** ** The local variables of [main] (lines 184-190)

    [name] is unbound until line 206 first runs.  The counters of lines
    189-190 and the loop variables [i], [check], [x] are never read before
    they are written and are left out. *)

Record locals := Locals {
  imgname : list string;
  imglabel : list string;
  imglabelnum : list string;
  rate : list Q;
  error : list string;
  name : option string
}.

Definition init_locals : locals := Locals [] [] [] [] [] None.

Definition set_name (n : string) (st : locals) : locals :=
  Locals (imgname st) (imglabel st) (imglabelnum st) (rate st) (error st)
         (Some n).

(** [error.append(n)] *)
Definition append_error (n : string) (st : locals) : locals :=
  Locals (imgname st) (imglabel st) (imglabelnum st) (rate st)
         (error st ++ [n]) (name st).

(** Lines 226-229: the four [append]s of the success ledger. *)
Definition append_success (infile label labelnum : string) (best_out : Q)
    (st : locals) : locals :=
  Locals (imgname st ++ [infile]) (imglabel st ++ [label])
         (imglabelnum st ++ [labelnum]) (rate st ++ [best_out])
         (error st) (name st).

(** ** The body of the per-entry loop *)

(** Lines 197-202.  The [continue] of line 199 ends one turn of this inner
    loop.  The boolean tells whether the loop ran to its end ([true]) or
    [os.mkdir] raised ([false]); directories made before the failure stay. *)
Fixpoint make_category_folders (imgpath infile : string) (ls : list string)
    (w : world) : world * bool :=
  match ls with
  | [] => (w, true)
  | l :: rest =>
      if String.eqb infile l then make_category_folders imgpath infile rest w
      else
        let fpath := path_join imgpath [l] in
        if negb (isdir w fpath) then
          match mkdir fpath w with
          | Some w' => make_category_folders imgpath infile rest w'
          | None => (w, false)
          end
        else make_category_folders imgpath infile rest w
  end.

(** Lines 203-205.  The body is a lone [continue], which ends one turn of
    this inner loop: whatever [find] answers, the next extension is tried and
    then the loop is over. *)
Fixpoint img_type_loop (infile : string) (checks : list string) : unit :=
  match checks with
  | [] => tt
  | check :: rest =>
      if Z.eqb (find infile check) (-1) then img_type_loop infile rest
      else img_type_loop infile rest
  end.

(** Lines 207-213, on the bytes found at [name]. *)
Definition classify `{Stages} (w : world) (name : string)
  : option (list (list Q)) :=
  bytes ← read_file w name;
  img_pil ← Image_open bytes;
  img_tensor ← preprocess img_pil;
  fc_out ← model img_tensor;
  softmax fc_out.

(** Lines 197-213, the [try] suite.  The third component is [fc_out] when
    the suite ran to its end and [None] when a statement raised. *)
Definition try_suite `{Stages} (imgpath infile : string) (w : world)
    (st : locals) : world * locals * option (list (list Q)) :=
  match make_category_folders imgpath infile labels w with
  | (w1, false) => (w1, st, None)
  | (w1, true) =>
      let 'tt := img_type_loop infile img_type in
      let name := path_join imgpath [infile] in
      (w1, set_name name st, classify w1 name)
  end.

(** Lines 216-217, the [except] suite.  ["error: " + name] is evaluated
    first and raises [UnboundLocalError] while [name] is unbound. *)
Definition except_suite (w : world) (st : locals)
  : outcome (world * locals) :=
  match name st with
  | None => Raised w
  | Some n => Returned (w, append_error n st)
  end.

(** Lines 220-223: [transfer_list]. *)
Definition transfer (fc_out : list (list Q)) : option (list Q) :=
  mapM (fun x => fc_out !! 0%nat ≫= (.!! x))
       (flat_map (fun _ => seq 0 (length labelsnum)) fc_out).

Definition Qgt_bool (x y : Q) : bool := negb (Qle_bool x y).

(** [max(l)]: the first item is kept until a strictly greater one comes;
    [ValueError] on the empty list. *)
Definition py_max (l : list Q) : option Q :=
  match l with
  | [] => None
  | x :: r => Some (fold_left (fun m y => if Qgt_bool y m then y else m) r x)
  end.

(** [l.index(x)]: the first position holding a value equal to [x];
    [ValueError] if there is none. *)
Fixpoint py_index (x : Q) (l : list Q) : option nat :=
  match l with
  | [] => None
  | y :: r => if Qeq_bool y x then Some 0%nat else S <$> py_index x r
  end.

(** Lines 224-225: [best_out] and [i]. *)
Definition decide_category (transfer_list : list Q) : option (Q * nat) :=
  best_out ← py_max transfer_list;
  i ← py_index best_out transfer_list;
  Some (best_out, i).

(** Lines 220-232, the [else] suite.  Nothing here is inside a handler. *)
Definition else_suite (imgpath infile : string) (fc_out : list (list Q))
    (w : world) (st : locals) : outcome (world * locals) :=
  match transfer fc_out ≫= decide_category with
  | None => Raised w
  | Some (best_out, i) =>
      match labels !! i, labelsnum !! i with
      | Some label, Some labelnum =>
          let st' := append_success infile label labelnum best_out st in
          let newpath := path_join imgpath [label; infile] in
          match name st' with
          | None => Raised w
          | Some n =>
              match move n newpath w with
              | Some w' => Returned (w', st')
              | None => Raised w
              end
          end
      | _, _ => Raised w
      end
  end.

(** Lines 196-232: one turn of [for infile in imagepath_list]. *)
Definition iteration `{Stages} (imgpath : string) (s : world * locals)
    (infile : string) : outcome (world * locals) :=
  match try_suite imgpath infile s.1 s.2 with
  | (w1, st1, None) => except_suite w1 st1
  | (w1, st1, Some fc_out) => else_suite imgpath infile fc_out w1 st1
  end.

(** Lines 195-232. *)
Fixpoint for_infile `{Stages} (imgpath : string) (imagepath_list : list string)
    (s : world * locals) : outcome (world * locals) :=
  match imagepath_list with
  | [] => Returned s
  | infile :: rest =>
      match iteration imgpath s infile with
      | Returned s' => for_infile imgpath rest s'
      | Raised w => Raised w
      end
  end.

(** ** The reports (lines 233-246) *)

Definition success_dict (st : locals) : columns :=
  [ ("imgname", map CStr (imgname st));
    ("predict_label", map CStr (imglabel st));
    ("predict_label_num", map CStr (imglabelnum st));
    ("probability", map CNum (rate st)) ].

Definition error_dict (st : locals) : columns :=
  [ ("error_imgname", map CStr (error st)) ].

Definition write_table (path : string) (d : columns) (w : world)
  : option world :=
  df ← DataFrame d; to_csv path df w.

Definition report (csv_path error_csv_path : string) (st : locals)
    (w : world) : outcome world :=
  match write_table csv_path (success_dict st) w with
  | None => Raised w
  | Some w1 =>
      match error st with
      | [] => Returned w1
      | _ :: _ =>
          match write_table error_csv_path (error_dict st) w1 with
          | None => Raised w1
          | Some w2 => Returned w2
          end
      end
  end.

(** ** [main] (lines 183-246)

    [csv_path] and [error_csv_path] are the globals the caller sets. *)
Definition main `{Stages} (csv_path error_csv_path imgpath : string)
    (w : world) : outcome world :=
  match listdir imgpath w with
  | None => Raised w
  | Some imagepath_list =>
      match for_infile imgpath (sort imagepath_list) (w, init_locals) with
      | Raised w' => Raised w'
      | Returned (w1, st) => report csv_path error_csv_path st w1
      end
  end.

(** ** The folder loop (lines 250-265)

    [args.output] exists already (line 248). *)

Definition csv_path_of (output f : string) : string :=
  path_join output [f +:+ "-Litton-7type-visual-landscape-predict_result.csv"].

Definition error_csv_path_of (output f : string) : string :=
  path_join output [f +:+ "-predict_error.csv"].

Fixpoint for_f `{Stages} (rootfolder output : string)
    (folderpath_list : list string) (w : world) : outcome world :=
  match folderpath_list with
  | [] => Returned w
  | f :: rest =>
      let imgpath := path_join rootfolder [f] in
      match main (csv_path_of output f) (error_csv_path_of output f)
                 imgpath w with
      | Returned w' => for_f rootfolder output rest w'
      | Raised w' => Raised w'
      end
  end.

Definition run `{Stages} (rootfolder output : string) (w : world)
  : outcome world :=
  match listdir rootfolder w with
  | None => Raised w
  | Some folderpath_list => for_f rootfolder output (sort folderpath_list) w
  end.

(** The file system an outcome ends in. *)
Definition final_world (o : outcome world) : world :=
  match o with
  | Returned w => w
  | Raised w => w
  end.

(** ** A concrete classifier and concrete folders

    Used to run the definitions.  A file whose bytes start with [IMG:] decodes;
    the rest of the bytes selects the network's answer. *)

Module Demo.

Definition detail_row : list Q :=
  [1#100; 2#100; 91#100; 2#100; 2#100; 1#100; 1#100].

Definition pano_row : list Q :=
  [60#100; 10#100; 10#100; 5#100; 5#100; 5#100; 5#100].

Definition tie_row : list Q :=
  [10#100; 30#100; 5#100; 30#100; 15#100; 5#100; 5#100].

Definition demo_softmax (t : string) : option (list (list Q)) :=
  if String.eqb t "IMG:detail" then Some [detail_row]
  else if String.eqb t "IMG:pano" then Some [pano_row]
  else if String.eqb t "IMG:tie" then Some [tie_row]
  else None.

Definition stages : Stages := {|
  image := string;
  tensor := string;
  Image_open := fun bytes => if String.prefix "IMG:" bytes then Some bytes else None;
  preprocess := Some;
  model := fun t => if String.eqb t "IMG:oom" then None else Some t;
  softmax := demo_softmax
|}.

Definition mk (l : list (string * node)) : world := World (list_to_map l) ∅.

Definition base : list (string * node) :=
  [ ("root", Dir); ("out", Dir); ("root/d", Dir) ].

(** The folder of the spec's scenario: two good images around a corrupt one. *)
Definition w_scenario : world :=
  mk (base ++ [ ("root/d/a.jpg", File "IMG:detail");
                ("root/d/b.png", File "garbage");
                ("root/d/c.bmp", File "IMG:pano") ]).

(** The seven category folders of [imgpath]. *)
Definition categories (imgpath : string) : list (string * node) :=
  map (fun l => (path_join imgpath [l], Dir)) labels.

(** The scenario folder once its category folders are made, and once
    [a.jpg] has been moved. *)
Definition w_scenario_folders : world :=
  mk (base ++ categories "root/d"
           ++ [ ("root/d/a.jpg", File "IMG:detail");
                ("root/d/b.png", File "garbage");
                ("root/d/c.bmp", File "IMG:pano") ]).

Definition w_scenario_a_moved : world :=
  mk (base ++ categories "root/d"
           ++ [ ("root/d/2.Detail-landscape/a.jpg", File "IMG:detail");
                ("root/d/b.png", File "garbage");
                ("root/d/c.bmp", File "IMG:pano") ]).

(** A folder holding one text file. *)
Definition w_notes : world :=
  mk (base ++ [ ("root/d/notes.txt", File "shopping list") ]).

(** A folder without entries. *)
Definition w_empty : world := mk base.

(** The scenario folder, where the system refuses to create [a.jpg] inside
    its category folder. *)
Definition w_locked : world :=
  World (nodes w_scenario) {[ "root/d/2.Detail-landscape/a.jpg" ]}.

Definition w_locked_folders : world :=
  World (nodes w_scenario_folders) {[ "root/d/2.Detail-landscape/a.jpg" ]}.

(** A folder in which a regular file bears the name of category 0. *)
Definition w_labelfile : world :=
  mk (base ++ [ ("root/d/0.Panoramic-landscape", File "not an image");
                ("root/d/a.jpg", File "IMG:detail");
                ("root/d/b.jpg", File "IMG:pano") ]).

(** The same folder after the turn of its first entry: the directories of
    categories 1 to 6 are made, that of category 0 is not. *)
Definition w_labelfile_folders : world :=
  mk (base ++ tl (categories "root/d")
           ++ [ ("root/d/0.Panoramic-landscape", File "not an image");
                ("root/d/a.jpg", File "IMG:detail");
                ("root/d/b.jpg", File "IMG:pano") ]).

(** The scenario folder as a first run leaves it, reports aside. *)
Definition w_rerun : world :=
  mk (base ++ categories "root/d"
           ++ [ ("root/d/2.Detail-landscape/a.jpg", File "IMG:detail");
                ("root/d/b.png", File "garbage");
                ("root/d/0.Panoramic-landscape/c.bmp", File "IMG:pano") ]).

(** Two folders; in the first no category folder can be created. *)
Definition w_readonly : world :=
  World (list_to_map (base ++ [ ("root/d/a.jpg", File "IMG:detail");
                                ("root/e", Dir);
                                ("root/e/z.jpg", File "IMG:pano") ]))
        (list_to_set (map (fun l => path_join "root/d" [l]) labels)).

End Demo.

(** ** The spec's reading of eligibility

    Written from the spec's words, to be compared with what [main] does: an
    entry is eligible iff it is not a category-folder name and its extension
    is one of the allow-list. *)

Fixpoint endswith (s suffix : string) : bool :=
  String.eqb s suffix
  || match s with
     | EmptyString => false
     | String _ r => endswith r suffix
     end.

Definition spec_eligible (infile : string) : bool :=
  negb (existsb (String.eqb infile) labels)
  && existsb (endswith infile) img_type.

(** The directories of [w] are directories of [w']. *)
Definition dirs_kept (w w' : world) : Prop :=
  forall p, isdir w p = true -> isdir w' p = true.

(** The file system in which a turn of the loop, or the loop, ends. *)
Definition world_of (o : outcome (world * locals)) : world :=
  match o with
  | Returned s => s.1
  | Raised w => w
  end.

(** The four columns of the success ledger have one length. *)
Definition aligned (st : locals) : Prop :=
  length (imglabel st) = length (imgname st) /\
  length (imglabelnum st) = length (imgname st) /\
  length (rate st) = length (imgname st).

(** [p] can be written as a report: it is no directory and may be created. *)
Definition writable (w : world) (p : string) : bool :=
  negb (isdir w p) && creatable w p.

(** ** The argument parser (lines 19-32)

    What the two overridden methods write, in order, and the status handed
    to [sys.exit].  Here the console is the whole effect, so it is
    recorded. *)

Inductive event :=
  | Stderr (s : string)
  | Stdout (s : string)
  | PrintHelp.

(** [s * n] *)
Fixpoint str_mul (s : string) (n : nat) : string :=
  match n with
  | O => ""
  | S k => s +:+ str_mul s k
  end.

Module PrintHelpBeforeLeaveArgumentParser.

(** [exit(self, status=0, message=None)]: [if message] holds for a
    non-empty string, [if status] for a non-zero integer. *)
Definition exit (status : Z) (message : option string) : list event * Z :=
  let said :=
    match message with
    | Some m => if String.eqb m "" then []
                else [Stderr m; Stdout (str_mul "-" 75)]
    | None => []
    end in
  let helped := if Z.eqb status 0 then [] else [PrintHelp] in
  (said ++ helped, status).

(** [error(self, message)] *)
Definition error (prog message : string) : list event * Z :=
  exit 2 (Some (prog +:+ ": error: " +:+ message
                     +:+ String "010"%char EmptyString)).

End PrintHelpBeforeLeaveArgumentParser.

(** ** Checks made before the model is loaded (lines 95-137) *)

(** How a stretch of the script's top level ends: it goes on with a value,
    calls [sys.exit], or an exception is left uncaught. *)
Inductive step (A : Type) :=
  | Continue (a : A) (w : world)
  | SysExit (status : Z) (w : world)
  | Uncaught (w : world).

Arguments Continue {A} a w.
Arguments SysExit {A} status w.
Arguments Uncaught {A} w.

(** [os.path.isfile] *)
Definition isfile (w : world) (p : string) : bool :=
  match nodes w !! p with
  | Some (File _) | Some (Table _) => true
  | _ => false
  end.

Definition default_model : string := "Litton-7type-visual-landscape-model.pth".

(** Lines 95-114.  [download output w] stands for [gdown.download]: the file
    system it leaves, or [None] when it raises. *)
Definition check_model (download : string -> world -> option world)
    (model : option string) (w : world) : step string :=
  match model with
  | None =>
      if negb (exists_ w default_model) then
        match download default_model w with
        | Some w' => Continue default_model w'
        | None => Uncaught w
        end
      else Continue default_model w
  | Some m =>
      if negb (exists_ w m) then SysExit 1 w
      else if negb (isfile w m) then SysExit 1 w
      else Continue m w
  end.

(** The two string methods the device check calls, [str.lower] and
    [str.isdigit], as Python defines them on the text of the argument. *)
Class StrMethods := {
  lower : string -> string;
  isdigit : string -> bool
}.

(** What the script asks about the machine: [platform.system()],
    [torch.backends.mps.is_available()], [torch.cuda.is_available()]. *)
Record machine := Machine {
  system : string;
  mps_is_available : bool;
  cuda_is_available : bool
}.

(** Lines 116-137: the device the script settles on, or the status it exits
    with. *)
Definition select_device `{StrMethods} (device : string) (m : machine)
  : string + Z :=
  if String.eqb (lower device) "auto" then
    if String.eqb (system m) "Darwin"
    then inl (if mps_is_available m then "mps" else "cpu")
    else inl (if cuda_is_available m then "cuda:0" else "cpu")
  else if String.eqb (lower device) "cpu" then inl "cpu"
  else if negb (isdigit device) then inr 1%Z
  else if String.eqb (system m) "Darwin" then inr 1%Z
  else inl ("cuda:" +:+ device).

(** Lines 95-137 in sequence: the model file, then the device. *)
Definition bootstrap `{StrMethods}
    (download : string -> world -> option world)
    (model : option string) (device : string) (m : machine) (w : world)
  : step (string * string) :=
  match check_model download model w with
  | Continue path w' =>
      match select_device device m with
      | inl d => Continue (path, d) w'
      | inr status => SysExit status w'
      end
  | SysExit status w' => SysExit status w'
  | Uncaught w' => Uncaught w'
  end.

(** The two methods on ASCII text. *)
Module Ascii_text.

Definition lower_char (c : ascii) : ascii :=
  let n := nat_of_ascii c in
  if (65 <=? n)%nat && (n <=? 90)%nat then ascii_of_nat (n + 32) else c.

Fixpoint lower (s : string) : string :=
  match s with
  | EmptyString => ""
  | String c r => String (lower_char c) (lower r)
  end.

Definition digit_char (c : ascii) : bool :=
  let n := nat_of_ascii c in (48 <=? n)%nat && (n <=? 57)%nat.

Fixpoint all_digits (s : string) : bool :=
  match s with
  | EmptyString => true
  | String c r => digit_char c && all_digits r
  end.

Definition isdigit (s : string) : bool :=
  negb (String.eqb s "") && all_digits s.

Definition methods : StrMethods := Build_StrMethods lower isdigit.

End Ascii_text.

(** ** Further concrete cases *)

Module Cases.

(** The ledgers the scenario folder ends with; its file system is then
    [Demo.w_rerun]. *)
Definition st_scenario : locals :=
  Locals ["a.jpg"; "c.bmp"]
         ["2.Detail-landscape"; "0.Panoramic-landscape"]
         ["2"; "0"]
         [91 # 100; 60 # 100]
         ["root/d/b.png"]
         (Some "root/d/c.bmp").

(** A network with two outputs only. *)
Definition two_outputs : Stages := {|
  image := string;
  tensor := string;
  Image_open := Some;
  preprocess := Some;
  model := Some;
  softmax := fun _ => Some [[1 # 2; 1 # 2]]
|}.

(** A root folder holding a regular file between two folders. *)
Definition w_file_in_root : world :=
  Demo.mk [ ("root", Dir); ("out", Dir);
            ("root/a", Dir);
            ("root/b.txt", File "read me");
            ("root/c", Dir);
            ("root/c/z.jpg", File "IMG:pano") ].

(** The same after folder [a], which is empty, has got its report. *)
Definition w_file_in_root_a : world :=
  Demo.mk [ ("root", Dir); ("out", Dir);
            ("root/a", Dir);
            ("root/b.txt", File "read me");
            ("root/c", Dir);
            ("root/c/z.jpg", File "IMG:pano");
            ("out/a-Litton-7type-visual-landscape-predict_result.csv",
             Table [ ("imgname", []); ("predict_label", []);
                     ("predict_label_num", []); ("probability", []) ]) ].

(** A machine of each kind. *)
Definition mac : machine := Machine "Darwin" true false.
Definition linux_gpu : machine := Machine "Linux" false true.

(** A download that fetches the default model. *)
Definition fetch (output : string) (w : world) : option world :=
  Some (set_nodes (<[output := File "weights"]> (nodes w)) w).

End Cases.

(** A label and a label number that belong together. *)
Definition label_of_number (label labelnum : string) : Prop :=
  exists i, (i < length labels)%nat /\ labels !! i = Some label /\
            labelnum = str i.

(** The regular files of [w'] carry bytes that some file of [w] carried. *)
Definition content_from (w w' : world) : Prop :=
  forall q b, nodes w' !! q = Some (File b) ->
              exists q0, nodes w !! q0 = Some (File b).

(** ** The decision step *)

Lemma Qgt_bool_true (x y : Q) : Qgt_bool x y = true <-> (y < x)%Q.
Proof.
  unfold Qgt_bool. rewrite negb_true_iff. split.
  - intros E. apply Qnot_le_lt. intros L. apply Qle_bool_iff in L. congruence.
  - intros L. destruct (Qle_bool x y) eqn:E; [|done].
    apply Qle_bool_iff in E. exfalso. exact (Qlt_not_le _ _ L E).
Qed.

Lemma Qgt_bool_false (x y : Q) : Qgt_bool x y = false <-> (x <= y)%Q.
Proof.
  unfold Qgt_bool. rewrite negb_false_iff. apply Qle_bool_iff.
Qed.

(** The running maximum of [max] is an item seen so far and bounds them all. *)
Lemma fold_max_spec (r : list Q) (x : Q) :
  let m := fold_left (fun m y => if Qgt_bool y m then y else m) r x in
  (m = x \/ m ∈ r) /\ (x <= m)%Q /\ (forall y, y ∈ r -> (y <= m)%Q).
Proof.
  revert x. induction r as [|a r IH]; intros x; simpl.
  - split; [by left|]. split; [apply Qle_refl|]. intros y Hy. inversion Hy.
  - destruct (Qgt_bool a x) eqn:E.
    + destruct (IH a) as (Hm & Hle & Hall).
      apply Qgt_bool_true in E.
      split; [right; destruct Hm as [->|Hm]; [left | by right]|].
      split; [eapply Qle_trans; [apply Qlt_le_weak, E | exact Hle]|].
      intros y Hy. apply elem_of_cons in Hy as [->|Hy]; [done | by apply Hall].
    + destruct (IH x) as (Hm & Hle & Hall).
      apply Qgt_bool_false in E.
      split; [destruct Hm as [->|Hm]; [by left | right; by right]|].
      split; [done|].
      intros y Hy. apply elem_of_cons in Hy as [->|Hy];
        [eapply Qle_trans; eauto | by apply Hall].
Qed.

Lemma py_max_spec (l : list Q) (m : Q) :
  py_max l = Some m -> m ∈ l /\ (forall y, y ∈ l -> (y <= m)%Q).
Proof.
  destruct l as [|x r]; [done|]. simpl. intros [= <-].
  destruct (fold_max_spec r x) as (Hm & Hle & Hall). split.
  - destruct Hm as [->|Hm]; [left | by right].
  - intros y Hy. apply elem_of_cons in Hy as [->|Hy]; [done | by apply Hall].
Qed.

Lemma py_max_nonempty (l : list Q) : l <> [] -> is_Some (py_max l).
Proof. destruct l; [done | by eexists]. Qed.

(** [index] answers the first position whose item equals [x]. *)
Lemma py_index_spec (x : Q) (l : list Q) (i : nat) :
  py_index x l = Some i ->
  (exists y, l !! i = Some y /\ (y == x)%Q) /\
  (forall j z, (j < i)%nat -> l !! j = Some z -> ~ (z == x)%Q).
Proof.
  revert i. induction l as [|y r IH]; intros i; simpl; [done|].
  destruct (Qeq_bool y x) eqn:E.
  - intros [= <-]. split; [|intros j z Hj; lia].
    exists y. split; [done | by apply Qeq_bool_iff].
  - destruct (py_index x r) as [k|] eqn:Ek; simpl; [|done].
    intros [= <-]. destruct (IH k eq_refl) as [Hat Hbefore]. split; [done|].
    intros [|j] z Hj; simpl.
    + intros [= <-]. by apply Qeq_bool_neq.
    + apply Hbefore. lia.
Qed.

Lemma py_index_total (x : Q) (l : list Q) : x ∈ l -> is_Some (py_index x l).
Proof.
  induction l as [|y r IH]; intros Hx; [inversion Hx|]. simpl.
  destruct (Qeq_bool y x) eqn:E; [by eexists|].
  apply elem_of_cons in Hx as [->|Hx].
  - rewrite Qeq_bool_refl in E. done.
  - destruct (IH Hx) as [k ->]. by eexists.
Qed.

Lemma transfer_single_row (row : list Q) :
  length row = length labels -> transfer [row] = Some row.
Proof.
  intros Hlen.
  do 7 (destruct row as [|? row]; [done|]). by destruct row.
Qed.

(** What [decide_category] answers, for any non-empty list. *)
Lemma decide_category_spec (v : list Q) (best : Q) (i : nat) :
  decide_category v = Some (best, i) ->
  (exists x, v !! i = Some x /\ (x == best)%Q) /\
  (forall j y, v !! j = Some y -> (y <= best)%Q) /\
  (forall j y, (j < i)%nat -> v !! j = Some y -> (y < best)%Q).
Proof.
  unfold decide_category. intros Hd.
  destruct (py_max v) as [m|] eqn:Hm; simpl in Hd; [|done].
  destruct (py_index m v) as [k|] eqn:Hk; simpl in Hd; [|done].
  injection Hd as <- <-.
  destruct (py_max_spec _ _ Hm) as [_ Hall].
  destruct (py_index_spec _ _ _ Hk) as [Hat Hbefore].
  split; [done|]. split.
  - intros j y Hj. apply Hall. by eapply list_elem_of_lookup_2.
  - intros j y Hj Hy.
    assert (y <= m)%Q as Hle by (apply Hall; by eapply list_elem_of_lookup_2).
    apply Qle_lteq in Hle as [Hlt|Heq]; [done|].
    exfalso. by eapply Hbefore.
Qed.

Lemma decide_category_total (v : list Q) :
  v <> [] -> is_Some (decide_category v).
Proof.
  intros Hv. unfold decide_category.
  destruct (py_max_nonempty v Hv) as [m Hm]. rewrite Hm. simpl.
  destruct (py_max_spec _ _ Hm) as [Hin _].
  destruct (py_index_total _ _ Hin) as [k ->]. by eexists.
Qed.

(** C6.  For every probability vector of length K, the decision step (lines
    220-225) yields an index [i] and a confidence [best] such that: no entry
    exceeds [best] (it is the maximum), every entry before [i] is strictly
    smaller (the lowest index wins among tied maxima), and the entry at [i]
    equals [best].  Being a function, the step answers the same pair whenever
    it is given the same vector. *)
Theorem decision_is_first_argmax (row : list Q) :
  length row = length labels ->
  exists best i,
    transfer [row] ≫= decide_category = Some (best, i) /\
    (i < length labels)%nat /\
    (exists x, row !! i = Some x /\ (x == best)%Q) /\
    (forall j y, row !! j = Some y -> (y <= best)%Q) /\
    (forall j y, (j < i)%nat -> row !! j = Some y -> (y < best)%Q).
Proof.
  intros Hlen. rewrite (transfer_single_row row Hlen). simpl.
  assert (row <> []) as Hne by (intros ->; done).
  destruct (decide_category_total row Hne) as [[best i] Hd].
  exists best, i. split; [done|].
  destruct (decide_category_spec _ _ _ Hd) as (Hat & Hmax & Hfirst).
  split; [|done].
  destruct Hat as (x & Hx & _).
  apply lookup_lt_Some in Hx. rewrite Hlen in Hx. exact Hx.
Qed.

(** On a vector with maxima at indices 1 and 3 the step answers index 1. *)
Lemma decision_is_first_argmax_witness :
  length Demo.tie_row = length labels /\
  exists best i,
    transfer [Demo.tie_row] ≫= decide_category = Some (best, i) /\
    (i < length labels)%nat /\
    (exists x, Demo.tie_row !! i = Some x /\ (x == best)%Q) /\
    (forall j y, Demo.tie_row !! j = Some y -> (y <= best)%Q) /\
    (forall j y, (j < i)%nat -> Demo.tie_row !! j = Some y -> (y < best)%Q).
Proof.
  split; [reflexivity | apply (decision_is_first_argmax Demo.tie_row); reflexivity].
Defined.

Example decision_tie_lowest_index :
  transfer [Demo.tie_row] ≫= decide_category = Some (30 # 100, 1%nat).
Proof. reflexivity. Qed.

(** ** Facts about the file-system operations *)

Lemma dirs_kept_refl (w : world) : dirs_kept w w.
Proof. by intros p. Qed.

Lemma dirs_kept_trans (w1 w2 w3 : world) :
  dirs_kept w1 w2 -> dirs_kept w2 w3 -> dirs_kept w1 w3.
Proof. intros H12 H23 p Hp. by apply H23, H12. Qed.

Lemma isdir_lookup (w : world) (p : string) :
  isdir w p = true <-> nodes w !! p = Some Dir.
Proof.
  unfold isdir. destruct (nodes w !! p) as [[]|]; split; done.
Qed.

Lemma mkdir_nodes (p : string) (w w' : world) :
  mkdir p w = Some w' ->
  nodes w !! p = None /\ nodes w' = <[p := Dir]> (nodes w) /\
  denied w' = denied w.
Proof.
  unfold mkdir, exists_. destruct (nodes w !! p) eqn:E; [done|].
  destruct (creatable w p); [|done]. intros [= <-]. done.
Qed.

Lemma mkdir_dirs_kept (p : string) (w w' : world) :
  mkdir p w = Some w' -> dirs_kept w w'.
Proof.
  intros (Hfresh & Hn & _)%mkdir_nodes q Hq.
  apply isdir_lookup in Hq. apply isdir_lookup. rewrite Hn.
  rewrite lookup_insert_ne; [done|]. intros ->. congruence.
Qed.

Lemma mkdir_isdir (p : string) (w w' : world) :
  mkdir p w = Some w' -> isdir w' p = true.
Proof.
  intros (_ & Hn & _)%mkdir_nodes. apply isdir_lookup.
  rewrite Hn. apply lookup_insert_eq.
Qed.

(** [os.mkdir] leaves every existing node as it is. *)
Lemma mkdir_lookup_kept (p q : string) (n : node) (w w' : world) :
  mkdir p w = Some w' -> nodes w !! q = Some n -> nodes w' !! q = Some n.
Proof.
  intros (Hfresh & Hn & _)%mkdir_nodes Hq. rewrite Hn.
  rewrite lookup_insert_ne; [done|]. intros ->. congruence.
Qed.

(** Moving a regular file keeps every directory. *)
Lemma move_file_dirs_kept (src dst : string) (w w' : world) :
  isdir w src = false -> move src dst w = Some w' -> dirs_kept w w'.
Proof.
  unfold move. intros Hsrc.
  set (real_dst := if isdir w dst then _ else _).
  destruct (isdir w dst && exists_ w real_dst); [done|].
  destruct (nodes w !! src) as [n|] eqn:En; [|done].
  assert (n <> Dir) as Hn.
  { intros ->. apply isdir_lookup in En. congruence. }
  assert ((if isdir w real_dst || negb (creatable w real_dst) then None
           else Some (set_nodes (<[real_dst := n]> (delete src (nodes w))) w))
          = Some w' -> dirs_kept w w') as Hgo.
  { destruct (isdir w real_dst) eqn:Ed; [done|].
    destruct (negb (creatable w real_dst)); [done|]. simpl.
    intros [= <-] q Hq. apply isdir_lookup. simpl.
    apply isdir_lookup in Hq.
    rewrite lookup_insert_ne; [|intros ->; apply isdir_lookup in Hq; congruence].
    rewrite lookup_delete_ne; [done|]. intros ->. congruence. }
  destruct n; [done | exact Hgo | exact Hgo].
Qed.

Lemma to_csv_nodes (path : string) (df : columns) (w w' : world) :
  to_csv path df w = Some w' ->
  isdir w path = false /\ nodes w' = <[path := Table df]> (nodes w).
Proof.
  unfold to_csv. destruct (isdir w path) eqn:E; [done|].
  destruct (negb (creatable w path)); [done|]. intros [= <-]. done.
Qed.

Lemma to_csv_isdir (path : string) (df : columns) (w w' : world) (p : string) :
  to_csv path df w = Some w' -> isdir w' p = isdir w p.
Proof.
  intros [Hd Hn]%to_csv_nodes. unfold isdir at 1. rewrite Hn.
  destruct (decide (path = p)) as [->|Hne].
  - rewrite lookup_insert_eq. done.
  - rewrite lookup_insert_ne; done.
Qed.

Lemma to_csv_dirs_kept (path : string) (df : columns) (w w' : world) :
  to_csv path df w = Some w' -> dirs_kept w w'.
Proof. intros Hw p Hp. by rewrite (to_csv_isdir _ _ _ _ p Hw). Qed.

Lemma to_csv_writable (path : string) (df : columns) (w : world) :
  writable w path = true ->
  to_csv path df w = Some (set_nodes (<[path := Table df]> (nodes w)) w).
Proof.
  unfold writable, to_csv. intros [Hd Hc]%andb_true_iff.
  apply negb_true_iff in Hd. by rewrite Hd, Hc.
Qed.

(** ** Facts about the category-folder loop *)

Lemma make_category_folders_kept (imgpath infile : string) (ls : list string)
    (w w1 : world) (b : bool) :
  make_category_folders imgpath infile ls w = (w1, b) ->
  dirs_kept w w1 /\
  (forall q n, nodes w !! q = Some n -> nodes w1 !! q = Some n).
Proof.
  revert w. induction ls as [|l rest IH]; intros w; simpl.
  - intros [= <- <-]. split; [apply dirs_kept_refl | done].
  - destruct (String.eqb infile l); [apply IH|].
    destruct (isdir w (path_join imgpath [l])); simpl; [apply IH|].
    destruct (mkdir (path_join imgpath [l]) w) as [w'|] eqn:Em.
    + intros Hrest. destruct (IH _ Hrest) as [Hd Hk]. split.
      * eapply dirs_kept_trans; [by eapply mkdir_dirs_kept | done].
      * intros q n Hq. apply Hk. by eapply mkdir_lookup_kept.
    + intros [= <- <-]. split; [apply dirs_kept_refl | done].
Qed.

(** After a complete pass every category other than [infile] has its
    directory. *)
Lemma make_category_folders_ensures (imgpath infile : string)
    (ls : list string) (w w1 : world) :
  make_category_folders imgpath infile ls w = (w1, true) ->
  forall l, l ∈ ls -> l <> infile -> isdir w1 (path_join imgpath [l]) = true.
Proof.
  revert w. induction ls as [|l rest IH]; intros w; simpl.
  - intros _ l Hl. inversion Hl.
  - intros Hm l' Hl' Hne. apply elem_of_cons in Hl' as [->|Hl'].
    + destruct (String.eqb_spec infile l) as [->|_]; [done|].
      destruct (isdir w (path_join imgpath [l])) eqn:Ed; simpl in Hm.
      * by apply (make_category_folders_kept _ _ _ _ _ _ Hm).
      * destruct (mkdir (path_join imgpath [l]) w) as [w'|] eqn:Em; [|done].
        apply (make_category_folders_kept _ _ _ _ _ _ Hm).
        by eapply mkdir_isdir.
    + destruct (String.eqb infile l); [by eapply IH|].
      destruct (isdir w (path_join imgpath [l])); simpl in Hm; [by eapply IH|].
      destruct (mkdir (path_join imgpath [l]) w) as [w'|]; [by eapply IH|done].
Qed.

(** Where the directories are there already, the pass calls [os.mkdir] for
    none of them and changes nothing. *)
Lemma make_category_folders_noop (imgpath infile : string) (ls : list string)
    (w : world) :
  (forall l, l ∈ ls -> l <> infile -> isdir w (path_join imgpath [l]) = true) ->
  make_category_folders imgpath infile ls w = (w, true).
Proof.
  induction ls as [|l rest IH]; intros Hall; simpl; [done|].
  destruct (String.eqb_spec infile l) as [->|Hne].
  - apply IH. intros l' Hl' Hne'. apply Hall; [by right | done].
  - rewrite Hall; [|by left | done]. simpl.
    apply IH. intros l' Hl' Hne'. apply Hall; [by right | done].
Qed.

(** ** Facts about one turn of the per-entry loop *)

Lemma img_type_loop_tt (infile : string) (checks : list string) :
  img_type_loop infile checks = tt.
Proof. by destruct (img_type_loop infile checks). Qed.

Lemma labelsnum_lookup (i : nat) (labelnum : string) :
  labelsnum !! i = Some labelnum -> labelnum = str i.
Proof.
  unfold labelsnum. rewrite list_lookup_fmap.
  destruct (seq 0 (length labels) !! i) as [k|] eqn:E; [|done].
  apply lookup_seq in E as [-> _]. simpl. congruence.
Qed.

(** The [else] suite ends in [Returned] exactly when the decision and the
    move both succeed; it raises without having changed the file system. *)
Lemma else_suite_returned (imgpath infile : string) (fc_out : list (list Q))
    (w w' : world) (st st' : locals) :
  else_suite imgpath infile fc_out w st = Returned (w', st') ->
  exists best i label n,
    transfer fc_out ≫= decide_category = Some (best, i) /\
    labels !! i = Some label /\
    st' = append_success infile label (str i) best st /\
    name st = Some n /\
    move n (path_join imgpath [label; infile]) w = Some w'.
Proof.
  unfold else_suite.
  destruct (transfer fc_out ≫= decide_category) as [[best i]|]; [|done].
  destruct (labels !! i) as [label|] eqn:El; [|done].
  destruct (labelsnum !! i) as [labelnum|] eqn:En; [|done].
  apply labelsnum_lookup in En as ->. simpl.
  destruct (name st) as [n|] eqn:Ename; [|done].
  destruct (move n _ w) as [w2|] eqn:Em; [|done].
  intros [= <- <-]. by exists best, i, label, n.
Qed.

Lemma else_suite_raised (imgpath infile : string) (fc_out : list (list Q))
    (w w' : world) (st : locals) :
  else_suite imgpath infile fc_out w st = Raised w' -> w' = w.
Proof.
  unfold else_suite.
  destruct (transfer fc_out ≫= decide_category) as [[best i]|]; [|congruence].
  destruct (labels !! i) as [label|]; [|congruence].
  destruct (labelsnum !! i) as [labelnum|]; [|congruence]. simpl.
  destruct (name st) as [n|]; [|congruence].
  destruct (move n _ w) as [w2|]; congruence.
Qed.

Section Facts.
Context `{Stages}.

(** One turn, spelled out by what happens in its [try] suite. *)
Lemma iteration_unfold (imgpath infile : string) (w : world) (st : locals) :
  iteration imgpath (w, st) infile =
  match make_category_folders imgpath infile labels w with
  | (w1, false) => except_suite w1 st
  | (w1, true) =>
      let name := path_join imgpath [infile] in
      match classify w1 name with
      | None => Returned (w1, append_error name (set_name name st))
      | Some fc_out => else_suite imgpath infile fc_out w1 (set_name name st)
      end
  end.
Proof.
  unfold iteration, try_suite. cbn [fst snd].
  destruct (make_category_folders imgpath infile labels w) as [w1 [|]];
    [|done].
  rewrite img_type_loop_tt. cbv zeta.
  by destruct (classify w1 (path_join imgpath [infile])).
Qed.

Lemma classify_reads_file (w : world) (p : string) (fc_out : list (list Q)) :
  classify w p = Some fc_out -> isdir w p = false.
Proof.
  unfold classify, read_file, isdir.
  by destruct (nodes w !! p) as [[]|].
Qed.

(** A turn that ends normally adds exactly one row: to the success ledger
    (all four columns) or to the failure ledger. *)
Lemma iteration_one_row (imgpath infile : string) (w w' : world)
    (st st' : locals) :
  iteration imgpath (w, st) infile = Returned (w', st') ->
  (exists n, st' = append_error n st \/
             st' = append_error n (set_name n st)) \/
  (exists label labelnum best n,
     st' = append_success infile label labelnum best (set_name n st)).
Proof.
  rewrite iteration_unfold.
  destruct (make_category_folders imgpath infile labels w) as [w1 [|]].
  - simpl. destruct (classify w1 _) as [fc_out|].
    + intros (best & i & label & n & _ & _ & -> & _ & _)%else_suite_returned.
      right. by eexists _, _, _, _.
    + intros [= <- <-]. left. eexists. by right.
  - unfold except_suite. destruct (name st) as [n|]; [|done].
    intros [= <- <-]. left. eexists. by left.
Qed.

Lemma iteration_rows (imgpath infile : string) (w w' : world)
    (st st' : locals) :
  iteration imgpath (w, st) infile = Returned (w', st') ->
  length (imgname st') + length (error st')
    = S (length (imgname st) + length (error st)) /\
  (aligned st -> aligned st').
Proof.
  intros [(n & [-> | ->]) | (label & labelnum & best & n & ->)]%iteration_one_row;
    unfold aligned; simpl; rewrite ?length_app; simpl; split; lia.
Qed.

(** After a turn that ended normally [name] is bound. *)
Lemma iteration_binds_name (imgpath infile : string) (w w' : world)
    (st st' : locals) :
  iteration imgpath (w, st) infile = Returned (w', st') -> is_Some (name st').
Proof.
  rewrite iteration_unfold.
  destruct (make_category_folders imgpath infile labels w) as [w1 [|]].
  - simpl. destruct (classify w1 _) as [fc_out|].
    + intros (best & i & label & n & _ & _ & -> & _ & _)%else_suite_returned.
      by eexists.
    + intros [= <- <-]. by eexists.
  - unfold except_suite. destruct (name st) as [n|] eqn:En; [|done].
    intros [= <- <-]. simpl. by eexists.
Qed.

Lemma iteration_dirs_kept (imgpath infile : string) (w : world) (st : locals) :
  dirs_kept w (world_of (iteration imgpath (w, st) infile)).
Proof.
  rewrite iteration_unfold.
  destruct (make_category_folders imgpath infile labels w) as [w1 b] eqn:Em.
  destruct (make_category_folders_kept _ _ _ _ _ _ Em) as [Hk _].
  destruct b.
  - simpl. destruct (classify w1 _) as [fc_out|] eqn:Ec; [|done].
    destruct (else_suite imgpath infile fc_out w1 _) as [[w' st']|w'] eqn:Ee.
    + apply else_suite_returned in Ee
        as (best & i & label & n & _ & _ & _ & [= <-] & Hmove).
      simpl. eapply dirs_kept_trans; [exact Hk|].
      eapply move_file_dirs_kept; [|exact Hmove].
      by eapply classify_reads_file.
    + apply else_suite_raised in Ee as ->. done.
  - unfold except_suite. by destruct (name st).
Qed.

(** ** Facts about the per-entry loop *)

Lemma for_infile_app (imgpath : string) (pre rest : list string)
    (s : world * locals) :
  for_infile imgpath (pre ++ rest) s =
  match for_infile imgpath pre s with
  | Returned s' => for_infile imgpath rest s'
  | Raised w => Raised w
  end.
Proof.
  revert s. induction pre as [|e pre IH]; intros s; simpl; [done|].
  destruct (iteration imgpath s e); [apply IH | done].
Qed.

(** When the loop ends normally every entry has got exactly one row. *)
Lemma for_infile_rows (imgpath : string) (l : list string) (w w' : world)
    (st st' : locals) :
  for_infile imgpath l (w, st) = Returned (w', st') ->
  length (imgname st') + length (error st')
    = length l + (length (imgname st) + length (error st)) /\
  (aligned st -> aligned st').
Proof.
  revert w st. induction l as [|e l IH]; intros w st; simpl.
  - intros [= <- <-]. done.
  - destruct (iteration imgpath (w, st) e) as [[w1 st1]|] eqn:Ei; [|done].
    intros Hl. destruct (IH _ _ Hl) as [Hn Ha].
    destruct (iteration_rows _ _ _ _ _ _ Ei) as [Hn1 Ha1].
    split; [lia | auto].
Qed.

Lemma for_infile_binds_name (imgpath : string) (l : list string)
    (w w' : world) (st st' : locals) :
  for_infile imgpath l (w, st) = Returned (w', st') ->
  l <> [] -> is_Some (name st').
Proof.
  revert w st. induction l as [|e l IH]; intros w st; simpl; [done|].
  destruct (iteration imgpath (w, st) e) as [[w1 st1]|] eqn:Ei; [|done].
  intros Hl _. destruct l as [|e' l'].
  - simpl in Hl. injection Hl as <- <-. by eapply iteration_binds_name.
  - by eapply IH.
Qed.

Lemma for_infile_dirs_kept (imgpath : string) (l : list string)
    (s : world * locals) :
  dirs_kept s.1 (world_of (for_infile imgpath l s)).
Proof.
  revert s. induction l as [|e l IH]; intros [w st]; simpl;
    [apply dirs_kept_refl|].
  pose proof (iteration_dirs_kept imgpath e w st) as Hk.
  destruct (iteration imgpath (w, st) e) as [s1|w1]; [|done].
  eapply dirs_kept_trans; [exact Hk | apply IH].
Qed.

End Facts.

(** ** Facts about the reports *)

Lemma DataFrame_success_dict (st : locals) :
  aligned st -> DataFrame (success_dict st) = Some (success_dict st).
Proof.
  intros (H1 & H2 & H3). unfold DataFrame, success_dict. simpl.
  rewrite !length_map, H1, H2, H3, Nat.eqb_refl. done.
Qed.




Lemma report_dirs_kept (csv_path error_csv_path : string) (st : locals)
    (w : world) :
  dirs_kept w (final_world (report csv_path error_csv_path st w)).
Proof.
  unfold report, write_table.
  destruct (DataFrame (success_dict st)) as [df|]; simpl;
    [|apply dirs_kept_refl].
  destruct (to_csv csv_path df w) as [w1|] eqn:E1; [|apply dirs_kept_refl].
  pose proof (to_csv_dirs_kept _ _ _ _ E1) as H1.
  destruct (error st); [done|].
  destruct (DataFrame (error_dict st)) as [df2|]; simpl; [|done].
  destruct (to_csv error_csv_path df2 w1) as [w2|] eqn:E2; [|done].
  simpl. eapply dirs_kept_trans; [exact H1 | by eapply to_csv_dirs_kept].
Qed.

Lemma aligned_init : aligned init_locals.
Proof. done. Qed.

Section Runs.
Context `{Stages}.

Lemma main_dirs_kept (csv_path error_csv_path imgpath : string) (w : world) :
  dirs_kept w (final_world (main csv_path error_csv_path imgpath w)).
Proof.
  unfold main. destruct (listdir imgpath w) as [l|]; [|apply dirs_kept_refl].
  pose proof (for_infile_dirs_kept imgpath (sort l) (w, init_locals)) as Hk.
  destruct (for_infile imgpath (sort l) (w, init_locals)) as [[w1 st]|w1];
    [|done].
  eapply dirs_kept_trans; [exact Hk | apply report_dirs_kept].
Qed.

Lemma for_f_dirs_kept (rootfolder output : string) (fl : list string)
    (w : world) :
  dirs_kept w (final_world (for_f rootfolder output fl w)).
Proof.
  revert w. induction fl as [|f fl IH]; intros w; simpl;
    [apply dirs_kept_refl|].
  pose proof (main_dirs_kept (csv_path_of output f) (error_csv_path_of output f)
                             (path_join rootfolder [f]) w) as Hk.
  destruct (main _ _ _ w) as [w'|w']; [|done].
  eapply dirs_kept_trans; [exact Hk | apply IH].
Qed.

Lemma run_dirs_kept (rootfolder output : string) (w : world) :
  dirs_kept w (final_world (run rootfolder output w)).
Proof.
  unfold run. destruct (listdir rootfolder w); [|apply dirs_kept_refl].
  apply for_f_dirs_kept.
Qed.

(** An exception that leaves the per-entry loop leaves [main], and one that
    leaves [main] ends the folder loop: no later folder is visited. *)
Lemma main_raised (csv_path error_csv_path imgpath : string) (w w' : world)
    (l : list string) :
  listdir imgpath w = Some l ->
  for_infile imgpath (sort l) (w, init_locals) = Raised w' ->
  main csv_path error_csv_path imgpath w = Raised w'.
Proof. intros Hl Hf. unfold main. by rewrite Hl, Hf. Qed.

Lemma for_f_raised (rootfolder output f : string) (rest : list string)
    (w w' : world) :
  main (csv_path_of output f) (error_csv_path_of output f)
       (path_join rootfolder [f]) w = Raised w' ->
  for_f rootfolder output (f :: rest) w = Raised w'.
Proof. intros Hm. simpl. by rewrite Hm. Qed.

End Runs.

(** ** The recorded confidence *)

(** C7.  For every successfully processed entry -- a turn of the loop that
    ends normally after the classifier answered one row of K probabilities --
    the value appended to [rate] is the maximum entry of that row and is the
    entry at the index of the recorded label, i.e. the probability of the
    winning category; the entry's file name, label and label number are
    appended alongside and the failure ledger is left alone. *)
Theorem recorded_confidence_is_row_maximum `{Stages}
    (imgpath infile : string) (w w1 w' : world) (st st' : locals)
    (row : list Q) :
  make_category_folders imgpath infile labels w = (w1, true) ->
  classify w1 (path_join imgpath [infile]) = Some [row] ->
  length row = length labels ->
  iteration imgpath (w, st) infile = Returned (w', st') ->
  exists best i label,
    imgname st' = imgname st ++ [infile] /\
    rate st' = rate st ++ [best] /\
    labels !! i = Some label /\
    imglabel st' = imglabel st ++ [label] /\
    imglabelnum st' = imglabelnum st ++ [str i] /\
    error st' = error st /\
    (exists x, row !! i = Some x /\ (x == best)%Q) /\
    (forall j y, row !! j = Some y -> (y <= best)%Q).
Proof.
  intros Hmake Hclass Hlen Hit.
  rewrite iteration_unfold, Hmake in Hit. cbv zeta in Hit.
  rewrite Hclass in Hit.
  apply else_suite_returned in Hit
    as (best & i & label & n & Hdec & Hlabel & -> & _ & _).
  rewrite (transfer_single_row row Hlen) in Hdec. simpl in Hdec.
  destruct (decide_category_spec _ _ _ Hdec) as (Hat & Hmax & _).
  exists best, i, label. simpl. done.
Qed.

(** The first entry of the scenario folder: [a.jpg], whose row has its
    maximum 0.91 at index 2. *)
Lemma recorded_confidence_is_row_maximum_witness :
  let st' := Locals ["a.jpg"] ["2.Detail-landscape"] ["2"] [91 # 100] []
                    (Some "root/d/a.jpg") in
  make_category_folders "root/d" "a.jpg" labels Demo.w_scenario
    = (Demo.w_scenario_folders, true) /\
  classify (H := Demo.stages) Demo.w_scenario_folders
           (path_join "root/d" ["a.jpg"]) = Some [Demo.detail_row] /\
  length Demo.detail_row = length labels /\
  iteration (H := Demo.stages) "root/d" (Demo.w_scenario, init_locals) "a.jpg"
    = Returned (Demo.w_scenario_a_moved, st') /\
  exists best i label,
    imgname st' = imgname init_locals ++ ["a.jpg"] /\
    rate st' = rate init_locals ++ [best] /\
    labels !! i = Some label /\
    imglabel st' = imglabel init_locals ++ [label] /\
    imglabelnum st' = imglabelnum init_locals ++ [str i] /\
    error st' = error init_locals /\
    (exists x, Demo.detail_row !! i = Some x /\ (x == best)%Q) /\
    (forall j y, Demo.detail_row !! j = Some y -> (y <= best)%Q).
Proof.
  intros st'.
  assert (make_category_folders "root/d" "a.jpg" labels Demo.w_scenario
          = (Demo.w_scenario_folders, true)) as H1
    by (vm_compute; reflexivity).
  assert (classify (H := Demo.stages) Demo.w_scenario_folders
                   (path_join "root/d" ["a.jpg"]) = Some [Demo.detail_row])
    as H2 by (vm_compute; reflexivity).
  assert (length Demo.detail_row = length labels) as H3 by reflexivity.
  assert (iteration (H := Demo.stages) "root/d" (Demo.w_scenario, init_locals)
                    "a.jpg" = Returned (Demo.w_scenario_a_moved, st')) as H4
    by (vm_compute; reflexivity).
  split; [exact H1|]. split; [exact H2|]. split; [exact H3|].
  split; [exact H4|].
  exact (recorded_confidence_is_row_maximum (H := Demo.stages)
           "root/d" "a.jpg" Demo.w_scenario Demo.w_scenario_folders
           Demo.w_scenario_a_moved init_locals st' Demo.detail_row
           H1 H2 H3 H4).
Defined.

(** ** The reports of a folder *)



(** ** Category folders *)

Lemma NoDup_labels : NoDup labels.
Proof.
  unfold labels.
  repeat (apply NoDup_cons; split;
          [intros Hin;
           repeat (apply elem_of_cons in Hin as [Hin|Hin]; [discriminate Hin|]);
           by apply elem_of_nil in Hin |]).
  apply NoDup_nil_2.
Qed.

(** Where every category but [k] has its directory, a pass either changes
    nothing or differs from that by one call of [os.mkdir], for [k]. *)
Lemma later_pass_makes_one_folder (imgpath k infile' : string)
    (ls : list string) (w w2 : world) (b : bool) :
  NoDup ls ->
  (forall l, l ∈ ls -> l <> k -> isdir w (path_join imgpath [l]) = true) ->
  make_category_folders imgpath infile' ls w = (w2, b) ->
  (w2 = w /\ b = true) \/
  (k ∈ ls /\ k <> infile' /\ isdir w (path_join imgpath [k]) = false /\
   ((mkdir (path_join imgpath [k]) w = Some w2 /\ b = true) \/
    (mkdir (path_join imgpath [k]) w = None /\ w2 = w /\ b = false))).
Proof.
  revert w. induction ls as [|l rest IH]; intros w Hnd Hdirs.
  - simpl. intros [= <- <-]. by left.
  - apply NoDup_cons in Hnd as [Hnotin Hnd].
    assert (forall l0, l0 ∈ rest -> l0 <> k ->
                       isdir w (path_join imgpath [l0]) = true) as Hrest
      by (intros l0 Hl0; apply Hdirs; by right).
    assert (make_category_folders imgpath infile' rest w = (w2, b) ->
            (w2 = w /\ b = true) \/
            (k ∈ l :: rest /\ k <> infile' /\
             isdir w (path_join imgpath [k]) = false /\
             ((mkdir (path_join imgpath [k]) w = Some w2 /\ b = true) \/
              (mkdir (path_join imgpath [k]) w = None /\ w2 = w /\
               b = false))))
      as Hskip.
    { intros Hm. destruct (IH w Hnd Hrest Hm) as [?|(Hk & ?)]; [by left|].
      right. split; [by right | done]. }
    cbn [make_category_folders].
    destruct (String.eqb_spec infile' l) as [Heq|Hne]; [exact Hskip|].
    destruct (isdir w (path_join imgpath [l])) eqn:Ed; cbn [negb];
      [exact Hskip|].
    assert (l = k) as Hlk.
    { destruct (decide (l = k)) as [|Hlk]; [done|].
      rewrite Hdirs in Ed; [done | by left | done]. }
    subst l.
    assert (k <> infile') as Hk by congruence.
    destruct (mkdir (path_join imgpath [k]) w) as [w'|] eqn:Em.
    + intros Hm. right. split; [by left|]. split; [done|]. split; [done|].
      left. rewrite make_category_folders_noop in Hm.
      * by injection Hm as <- <-.
      * intros l0 Hl0 _. eapply mkdir_dirs_kept; [exact Em|].
        apply Hrest; [done|]. intros ->. done.
    + intros [= <- <-]. right. split; [by left|]. split; [done|].
      split; [done|]. by right.
Qed.

(** C9, as stated, fails.  In the folder where a regular file bears the
    name of category 0, the pass made in the turn of that file skips
    category 0 and runs to its end.  The pass made for the next entry, on
    the same folder, is not a repetition without effect: it calls [os.mkdir]
    for category 0, which raises because the name is taken by the file. *)
Lemma second_pass_raises_after_category_named_file :
  make_category_folders "root/d" "0.Panoramic-landscape" labels
                        Demo.w_labelfile
    = (Demo.w_labelfile_folders, true) /\
  isdir Demo.w_labelfile_folders
        (path_join "root/d" ["0.Panoramic-landscape"]) = false /\
  mkdir (path_join "root/d" ["0.Panoramic-landscape"])
        Demo.w_labelfile_folders = None /\
  make_category_folders "root/d" "a.jpg" labels Demo.w_labelfile_folders
    = (Demo.w_labelfile_folders, false).
Proof.
  split; [vm_compute; reflexivity|].
  split; [vm_compute; reflexivity|].
  split; vm_compute; reflexivity.
Qed.

(** C9, amended.  Category-folder creation is non-destructive, and
    idempotent up to the one category a pass skips, the one named like the
    entry being processed.  After a pass that ran to its end, every category
    other than the entry's own name has its directory; a second pass for the
    same entry, or for any entry when the first one is not named like a
    category, raises nothing, calls [os.mkdir] for nothing and leaves the
    file system as it is; where the seven directories exist beforehand any
    pass accepts them as they are.  After a pass for an entry named like a
    category, the pass of another entry can differ from that only by one
    call of [os.mkdir], for that category, made when its name is no
    directory; it raises when the call does.  No directory is lost: whatever
    is a directory before a pass, before [main] or before the whole run is
    still a directory, at the same path, when it ends, normally or not. *)
Theorem category_folders_idempotent `{Stages} (imgpath infile : string)
    (w w1 : world) :
  make_category_folders imgpath infile labels w = (w1, true) ->
  make_category_folders imgpath infile labels w1 = (w1, true) /\
  (forall l, l ∈ labels -> l <> infile ->
             isdir w1 (path_join imgpath [l]) = true) /\
  (forall w0 infile',
      (forall l, l ∈ labels -> isdir w0 (path_join imgpath [l]) = true) ->
      make_category_folders imgpath infile' labels w0 = (w0, true)) /\
  (infile ∉ labels ->
   forall infile', make_category_folders imgpath infile' labels w1 = (w1, true)) /\
  dirs_kept w w1 /\
  (forall csv_path error_csv_path,
      dirs_kept w (final_world (main csv_path error_csv_path imgpath w))) /\
  (forall rootfolder output,
      dirs_kept w (final_world (run rootfolder output w))) /\
  (forall infile' w2 b,
      make_category_folders imgpath infile' labels w1 = (w2, b) ->
      (w2 = w1 /\ b = true) \/
      (infile ∈ labels /\ infile <> infile' /\
       isdir w1 (path_join imgpath [infile]) = false /\
       ((mkdir (path_join imgpath [infile]) w1 = Some w2 /\ b = true) \/
        (mkdir (path_join imgpath [infile]) w1 = None /\ w2 = w1 /\
         b = false)))).
Proof.
  intros Hmake.
  pose proof (make_category_folders_ensures _ _ _ _ _ Hmake) as Hens.
  split; [by apply make_category_folders_noop|].
  split; [exact Hens|].
  split; [intros w0 infile' Hall; apply make_category_folders_noop; auto|].
  split.
  { intros Hnot infile'. apply make_category_folders_noop.
    intros l Hl _. apply Hens; [done|]. intros ->. done. }
  split; [by apply (make_category_folders_kept _ _ _ _ _ _ Hmake)|].
  split; [intros; apply main_dirs_kept|].
  split; [intros; apply run_dirs_kept|].
  intros infile' w2 b Hlater.
  exact (later_pass_makes_one_folder imgpath infile infile' labels w1 w2 b
           NoDup_labels Hens Hlater).
Qed.

(** The scenario folder: the first pass makes the seven directories, the
    second changes nothing. *)
Lemma category_folders_idempotent_witness :
  make_category_folders "root/d" "a.jpg" labels Demo.w_scenario
    = (Demo.w_scenario_folders, true) /\
  make_category_folders "root/d" "a.jpg" labels Demo.w_scenario_folders
    = (Demo.w_scenario_folders, true).
Proof.
  assert (make_category_folders "root/d" "a.jpg" labels Demo.w_scenario
          = (Demo.w_scenario_folders, true)) as H1
    by (vm_compute; reflexivity).
  split; [exact H1|].
  exact (proj1 (category_folders_idempotent (H := Demo.stages)
                  "root/d" "a.jpg" Demo.w_scenario Demo.w_scenario_folders
                  H1)).
Defined.

(** ** The value of [name] *)

Lemma length_append (s1 s2 : string) :
  String.length (s1 +:+ s2) = String.length s1 + String.length s2.
Proof. induction s1 as [|c s1 IH]; simpl; [done | by rewrite IH]. Qed.

(** A path made by [os.path.join] from a non-empty folder path and a file
    name is longer than the file name. *)
Lemma path_join_longer (imgpath infile : string) :
  imgpath <> "" -> startswith_sep infile = false ->
  String.length infile < String.length (path_join imgpath [infile]).
Proof.
  intros Hne Hs. unfold path_join. simpl. unfold join_step. rewrite Hs.
  assert (0 < String.length imgpath) by (destruct imgpath; [done | simpl; lia]).
  destruct (String.eqb imgpath "" || endswith_sep imgpath);
    rewrite !length_append; simpl; lia.
Qed.

(** One turn either leaves [name] alone (the folder loop raised) or binds it
    to the path of its entry. *)
Lemma iteration_name `{Stages} (imgpath infile : string) (w w' : world)
    (st st' : locals) :
  iteration imgpath (w, st) infile = Returned (w', st') ->
  name st' =
    if (make_category_folders imgpath infile labels w).2
    then Some (path_join imgpath [infile]) else name st.
Proof.
  rewrite iteration_unfold.
  destruct (make_category_folders imgpath infile labels w) as [w1 [|]]; simpl.
  - destruct (classify w1 _) as [fc_out|].
    + by intros (best & i & label & n & _ & _ & -> & _ & _)%else_suite_returned.
    + by intros [= <- <-].
  - unfold except_suite. destruct (name st) as [n|] eqn:En; [|done].
    intros [= <- <-]. simpl. congruence.
Qed.

(** Through the loop [name] keeps its value or holds the path of one of the
    entries gone through. *)
Lemma for_infile_name `{Stages} (imgpath : string) (l : list string)
    (w w' : world) (st st' : locals) :
  for_infile imgpath l (w, st) = Returned (w', st') ->
  name st' = name st \/
  exists e, e ∈ l /\ name st' = Some (path_join imgpath [e]).
Proof.
  revert w st. induction l as [|e l IH]; intros w st; simpl.
  - intros [= <- <-]. by left.
  - destruct (iteration imgpath (w, st) e) as [[w1 st1]|] eqn:Ei; [|done].
    intros Hl. apply iteration_name in Ei.
    destruct (IH _ _ Hl) as [Heq | (e' & He' & Hn)].
    + rewrite Heq, Ei.
      destruct (make_category_folders imgpath e labels w).2; [|by left].
      right. exists e. split; [by left | done].
    + right. exists e'. split; [by right | done].
Qed.

(** ** What a failure record holds *)

(** C5, as stated, fails: the record made for the corrupt [b.png] of the
    scenario folder is the path [root/d/b.png], and that is what the column
    [error_imgname] of the failure report holds. *)
Lemma failure_record_is_not_bare_filename :
  exists w',
    run (H := Demo.stages) "root" "out" Demo.w_scenario = Returned w' /\
    nodes w' !! "out/d-predict_error.csv"
      = Some (Table [ ("error_imgname", [CStr "root/d/b.png"]) ]) /\
    "root/d/b.png" <> "b.png".
Proof.
  eexists. split; [vm_compute; reflexivity|].
  split; [vm_compute; reflexivity | discriminate].
Qed.

(** C5, amended.  The failure record made for an entry that fails in
    decoding, preprocessing or classification is that entry's path
    [os.path.join(imgpath, infile)]: the folder path in front of the file
    name, hence never the bare file name; nothing is added to the success
    ledger. *)
Theorem failure_record_is_joined_path `{Stages} (imgpath infile : string)
    (w w1 : world) (st : locals) :
  make_category_folders imgpath infile labels w = (w1, true) ->
  classify w1 (path_join imgpath [infile]) = None ->
  imgpath <> "" ->
  startswith_sep infile = false ->
  exists st',
    iteration imgpath (w, st) infile = Returned (w1, st') /\
    error st' = error st ++ [path_join imgpath [infile]] /\
    imgname st' = imgname st /\
    path_join imgpath [infile] <> infile /\
    String.length infile < String.length (path_join imgpath [infile]).
Proof.
  intros Hmake Hclass Hne Hsep.
  pose proof (path_join_longer imgpath infile Hne Hsep) as Hlen.
  eexists. split.
  - rewrite iteration_unfold, Hmake. cbv zeta. rewrite Hclass. reflexivity.
  - simpl. split; [done|]. split; [done|]. split; [|done].
    intros Heq. rewrite Heq in Hlen. lia.
Qed.

(** The corrupt [b.png] of the scenario folder, met after [a.jpg] is
    moved. *)
Lemma failure_record_is_joined_path_witness :
  make_category_folders "root/d" "b.png" labels Demo.w_scenario_a_moved
    = (Demo.w_scenario_a_moved, true) /\
  classify (H := Demo.stages) Demo.w_scenario_a_moved
           (path_join "root/d" ["b.png"]) = None /\
  "root/d" <> "" /\
  startswith_sep "b.png" = false /\
  exists st',
    iteration (H := Demo.stages) "root/d"
              (Demo.w_scenario_a_moved, init_locals) "b.png"
      = Returned (Demo.w_scenario_a_moved, st') /\
    error st' = error init_locals ++ [path_join "root/d" ["b.png"]] /\
    imgname st' = imgname init_locals /\
    path_join "root/d" ["b.png"] <> "b.png" /\
    String.length "b.png" < String.length (path_join "root/d" ["b.png"]).
Proof.
  assert (make_category_folders "root/d" "b.png" labels Demo.w_scenario_a_moved
          = (Demo.w_scenario_a_moved, true)) as H1
    by (vm_compute; reflexivity).
  assert (classify (H := Demo.stages) Demo.w_scenario_a_moved
                   (path_join "root/d" ["b.png"]) = None) as H2
    by (vm_compute; reflexivity).
  assert ("root/d" <> "") as H3 by discriminate.
  assert (startswith_sep "b.png" = false) as H4 by reflexivity.
  split; [exact H1|]. split; [exact H2|]. split; [exact H3|].
  split; [exact H4|].
  exact (failure_record_is_joined_path (H := Demo.stages) "root/d" "b.png"
           Demo.w_scenario_a_moved Demo.w_scenario_a_moved init_locals
           H1 H2 H3 H4).
Defined.

(** ** Which exceptions the handler catches *)

(** C2, as stated, fails: in the scenario folder with the destination of
    [a.jpg] refused, [shutil.move] raises in the turn of [a.jpg]; the run ends
    there with no report written and [b.png] and [c.bmp] never looked at. *)
Lemma move_failure_aborts_the_run :
  exists w',
    run (H := Demo.stages) "root" "out" Demo.w_locked = Raised w' /\
    nodes w' !! "out/d-Litton-7type-visual-landscape-predict_result.csv"
      = None /\
    nodes w' !! "out/d-predict_error.csv" = None /\
    nodes w' !! "root/d/a.jpg" = Some (File "IMG:detail") /\
    nodes w' !! "root/d/c.bmp" = Some (File "IMG:pano").
Proof.
  eexists. split; [vm_compute; reflexivity|].
  repeat split; vm_compute; reflexivity.
Qed.

(** C2, amended.  For an entry whose [try] suite gets past folder creation:
    an exception raised by decoding, preprocessing or classification is
    caught, the entry's path is appended to the failure ledger and the loop
    goes on with the next entry.  The decision step and the file move are in
    the [else] suite, outside the handler: an exception raised there is not
    caught, it makes no failure record and leaves the loop, so that the
    remaining entries are not processed. *)
Theorem try_suite_errors_are_isolated `{Stages} (imgpath infile : string)
    (rest : list string) (w w1 : world) (st : locals) :
  make_category_folders imgpath infile labels w = (w1, true) ->
  (classify w1 (path_join imgpath [infile]) = None ->
   for_infile imgpath (infile :: rest) (w, st) =
   for_infile imgpath rest
     (w1, append_error (path_join imgpath [infile])
                       (set_name (path_join imgpath [infile]) st))) /\
  (forall fc_out,
      classify w1 (path_join imgpath [infile]) = Some fc_out ->
      transfer fc_out ≫= decide_category = None ->
      for_infile imgpath (infile :: rest) (w, st) = Raised w1) /\
  (forall fc_out best i label,
      classify w1 (path_join imgpath [infile]) = Some fc_out ->
      transfer fc_out ≫= decide_category = Some (best, i) ->
      labels !! i = Some label ->
      move (path_join imgpath [infile]) (path_join imgpath [label; infile]) w1
        = None ->
      for_infile imgpath (infile :: rest) (w, st) = Raised w1).
Proof.
  intros Hmake. cbn [for_infile]. rewrite iteration_unfold, Hmake. cbv zeta.
  split; [|split].
  - intros ->. done.
  - intros fc_out -> Hdec. unfold else_suite. by rewrite Hdec.
  - intros fc_out best i label -> Hdec Hlabel Hmove. unfold else_suite.
    rewrite Hdec, Hlabel.
    destruct (labelsnum !! i) as [labelnum|]; [|done]. simpl.
    by rewrite Hmove.
Qed.

(** The corrupt [b.png] of the scenario folder is recorded and the loop goes
    on with [c.bmp]. *)
Lemma try_suite_errors_are_isolated_witness :
  make_category_folders "root/d" "b.png" labels Demo.w_scenario_a_moved
    = (Demo.w_scenario_a_moved, true) /\
  classify (H := Demo.stages) Demo.w_scenario_a_moved
           (path_join "root/d" ["b.png"]) = None /\
  for_infile (H := Demo.stages) "root/d" ["b.png"; "c.bmp"]
             (Demo.w_scenario_a_moved, init_locals) =
  for_infile (H := Demo.stages) "root/d" ["c.bmp"]
    (Demo.w_scenario_a_moved,
     append_error (path_join "root/d" ["b.png"])
                  (set_name (path_join "root/d" ["b.png"]) init_locals)).
Proof.
  assert (make_category_folders "root/d" "b.png" labels Demo.w_scenario_a_moved
          = (Demo.w_scenario_a_moved, true)) as H1
    by (vm_compute; reflexivity).
  assert (classify (H := Demo.stages) Demo.w_scenario_a_moved
                   (path_join "root/d" ["b.png"]) = None) as H2
    by (vm_compute; reflexivity).
  split; [exact H1|]. split; [exact H2|].
  exact (proj1 (try_suite_errors_are_isolated (H := Demo.stages)
                  "root/d" "b.png" ["c.bmp"] Demo.w_scenario_a_moved
                  Demo.w_scenario_a_moved init_locals H1) H2).
Defined.

(** The refused move of [a.jpg], seen on the loop alone: the exception leaves
    it in the first turn. *)
Example refused_move_leaves_the_loop :
  make_category_folders "root/d" "a.jpg" labels Demo.w_locked
    = (Demo.w_locked_folders, true) /\
  move "root/d/a.jpg" "root/d/2.Detail-landscape/a.jpg" Demo.w_locked_folders
    = None /\
  for_infile (H := Demo.stages) "root/d" ["a.jpg"; "b.png"; "c.bmp"]
             (Demo.w_locked, init_locals)
    = Raised Demo.w_locked_folders.
Proof. repeat split; vm_compute; reflexivity. Qed.

(** ** A failure of category-folder creation *)

(** C3, as stated, fails.  In a folder where a regular file bears the name
    of category 0, the turn of that file makes the other six directories;
    the turns of [a.jpg] and [b.jpg] each attempt the creation again and
    [os.mkdir] raises in both.  Neither failure ends the folder's
    processing: each is recorded in the failure ledger, the loop runs to its
    end and both reports are written. *)
Lemma folder_creation_failure_is_recorded :
  sort ["a.jpg"; "b.jpg"; "0.Panoramic-landscape"]
    = ["0.Panoramic-landscape"; "a.jpg"; "b.jpg"] /\
  iteration (H := Demo.stages) "root/d" (Demo.w_labelfile, init_locals)
            "0.Panoramic-landscape"
    = Returned (Demo.w_labelfile_folders,
                Locals [] [] [] [] ["root/d/0.Panoramic-landscape"]
                       (Some "root/d/0.Panoramic-landscape")) /\
  make_category_folders "root/d" "a.jpg" labels Demo.w_labelfile_folders
    = (Demo.w_labelfile_folders, false) /\
  make_category_folders "root/d" "b.jpg" labels Demo.w_labelfile_folders
    = (Demo.w_labelfile_folders, false) /\
  exists w',
    run (H := Demo.stages) "root" "out" Demo.w_labelfile = Returned w' /\
    nodes w' !! "out/d-predict_error.csv"
      = Some (Table [ ("error_imgname",
                       [ CStr "root/d/0.Panoramic-landscape";
                         CStr "root/d/0.Panoramic-landscape";
                         CStr "root/d/0.Panoramic-landscape" ]) ]) /\
    nodes w' !! "out/d-Litton-7type-visual-landscape-predict_result.csv"
      = Some (Table [ ("imgname", []); ("predict_label", []);
                      ("predict_label_num", []); ("probability", []) ]).
Proof.
  split; [vm_compute; reflexivity|].
  split; [vm_compute; reflexivity|].
  split; [vm_compute; reflexivity|].
  split; [vm_compute; reflexivity|].
  eexists. split; [vm_compute; reflexivity|].
  split; vm_compute; reflexivity.
Qed.

(** C3, amended.  Category-folder creation is attempted anew in every turn
    of the per-entry loop, as the first statements of the [try] suite, and a
    failure of it is handled by the per-entry handler like any other error of
    that suite: with [name] bound, the handler appends the value of [name]
    to the failure ledger, nothing else of the turn is run, and the loop goes
    on with the next entry.  It is not a condition that ends the folder's
    processing. *)
Theorem folder_creation_failure_is_per_entry `{Stages}
    (imgpath infile : string) (rest : list string) (w w1 : world)
    (st : locals) (n : string) :
  make_category_folders imgpath infile labels w = (w1, false) ->
  name st = Some n ->
  iteration imgpath (w, st) infile = Returned (w1, append_error n st) /\
  for_infile imgpath (infile :: rest) (w, st) =
  for_infile imgpath rest (w1, append_error n st).
Proof.
  intros Hmake Hname.
  assert (iteration imgpath (w, st) infile = Returned (w1, append_error n st))
    as Hit.
  { rewrite iteration_unfold, Hmake. unfold except_suite. by rewrite Hname. }
  split; [exact Hit|]. cbn [for_infile]. by rewrite Hit.
Qed.

(** The turn of [a.jpg] in the folder with the category-named file. *)
Lemma folder_creation_failure_is_per_entry_witness :
  let st := Locals [] [] [] [] ["root/d/0.Panoramic-landscape"]
                   (Some "root/d/0.Panoramic-landscape") in
  make_category_folders "root/d" "a.jpg" labels Demo.w_labelfile_folders
    = (Demo.w_labelfile_folders, false) /\
  name st = Some "root/d/0.Panoramic-landscape" /\
  iteration (H := Demo.stages) "root/d" (Demo.w_labelfile_folders, st) "a.jpg"
    = Returned (Demo.w_labelfile_folders,
                append_error "root/d/0.Panoramic-landscape" st) /\
  for_infile (H := Demo.stages) "root/d" ["a.jpg"; "b.jpg"]
             (Demo.w_labelfile_folders, st) =
  for_infile (H := Demo.stages) "root/d" ["b.jpg"]
             (Demo.w_labelfile_folders,
              append_error "root/d/0.Panoramic-landscape" st).
Proof.
  intros st.
  assert (make_category_folders "root/d" "a.jpg" labels
                                Demo.w_labelfile_folders
          = (Demo.w_labelfile_folders, false)) as H1
    by (vm_compute; reflexivity).
  assert (name st = Some "root/d/0.Panoramic-landscape") as H2
    by reflexivity.
  split; [exact H1|]. split; [exact H2|].
  exact (folder_creation_failure_is_per_entry (H := Demo.stages)
           "root/d" "a.jpg" ["b.jpg"] Demo.w_labelfile_folders
           Demo.w_labelfile_folders st "root/d/0.Panoramic-landscape" H1 H2).
Defined.

(** ** The path the handler records *)

(** C10, as stated, fails in its middle part.  In the folder with the
    category-named file the turn of [b.jpg] fails during folder creation,
    before [name] is assigned; the entry before it is [a.jpg], yet the
    ledger receives the path of [0.Panoramic-landscape], because the turn of
    [a.jpg] failed at the same place and left [name] as it was. *)
Lemma stale_name_is_not_the_previous_entry :
  sort ["a.jpg"; "b.jpg"; "0.Panoramic-landscape"]
    = ["0.Panoramic-landscape"; "a.jpg"; "b.jpg"] /\
  for_infile (H := Demo.stages) "root/d" ["0.Panoramic-landscape"; "a.jpg"]
             (Demo.w_labelfile, init_locals)
    = Returned (Demo.w_labelfile_folders,
                Locals [] [] [] []
                       [ "root/d/0.Panoramic-landscape";
                         "root/d/0.Panoramic-landscape" ]
                       (Some "root/d/0.Panoramic-landscape")) /\
  make_category_folders "root/d" "b.jpg" labels Demo.w_labelfile_folders
    = (Demo.w_labelfile_folders, false) /\
  for_infile (H := Demo.stages) "root/d"
             ["0.Panoramic-landscape"; "a.jpg"; "b.jpg"]
             (Demo.w_labelfile, init_locals)
    = Returned (Demo.w_labelfile_folders,
                Locals [] [] [] []
                       [ "root/d/0.Panoramic-landscape";
                         "root/d/0.Panoramic-landscape";
                         "root/d/0.Panoramic-landscape" ]
                       (Some "root/d/0.Panoramic-landscape")) /\
  "root/d/0.Panoramic-landscape" <> path_join "root/d" ["a.jpg"].
Proof.
  split; [vm_compute; reflexivity|].
  split; [vm_compute; reflexivity|].
  split; [vm_compute; reflexivity|].
  split; [vm_compute; reflexivity | vm_compute; discriminate].
Qed.

(** C10, amended.  When an entry fails during folder creation, after the
    entries [pre] of the folder have gone through the loop, the handler uses
    the value [name] has at that moment.
    - With [name] bound, that value is appended to the failure ledger and
      the loop goes on.  It is the path of an earlier entry of the folder:
      that of the entry just before when that entry got past folder
      creation, and otherwise the value that entry found.
    - [name] is unbound exactly when the failing entry is the first of the
      folder.  Then the handler itself raises: the exception leaves the
      loop and [main] without any report written, and it ends the loop over
      the folders, so that no later folder is processed. *)
Theorem handler_records_current_name `{Stages} (imgpath infile : string)
    (pre rest : list string) (w0 w w1 : world) (st : locals) :
  for_infile imgpath pre (w0, init_locals) = Returned (w, st) ->
  make_category_folders imgpath infile labels w = (w1, false) ->
  match name st with
  | Some n =>
      pre <> [] /\
      (exists e, e ∈ pre /\ n = path_join imgpath [e]) /\
      for_infile imgpath (pre ++ infile :: rest) (w0, init_locals) =
      for_infile imgpath rest (w1, append_error n st)
  | None =>
      pre = [] /\
      for_infile imgpath (pre ++ infile :: rest) (w0, init_locals) = Raised w1
  end /\
  (forall pre' e w' st',
      pre = pre' ++ [e] ->
      for_infile imgpath pre' (w0, init_locals) = Returned (w', st') ->
      name st = if (make_category_folders imgpath e labels w').2
                then Some (path_join imgpath [e]) else name st') /\
  (pre = [] ->
   forall csv_path error_csv_path l,
     listdir imgpath w0 = Some l ->
     sort l = infile :: rest ->
     main csv_path error_csv_path imgpath w0 = Raised w1) /\
  (pre = [] ->
   forall rootfolder output f frest l,
     imgpath = path_join rootfolder [f] ->
     listdir imgpath w0 = Some l ->
     sort l = infile :: rest ->
     for_f rootfolder output (f :: frest) w0 = Raised w1).
Proof.
  intros Hpre Hmake.
  assert (for_infile imgpath (pre ++ infile :: rest) (w0, init_locals)
          = match name st with
            | Some n => for_infile imgpath rest (w1, append_error n st)
            | None => Raised w1
            end) as Hstep.
  { rewrite for_infile_app, Hpre. cbn [for_infile].
    rewrite iteration_unfold, Hmake. unfold except_suite.
    by destruct (name st). }
  assert (pre = [] ->
          forall csv_path error_csv_path l,
            listdir imgpath w0 = Some l ->
            sort l = infile :: rest ->
            main csv_path error_csv_path imgpath w0 = Raised w1) as Hmain.
  { intros -> csv_path error_csv_path l Hl Hs.
    simpl in Hpre. injection Hpre as <- <-.
    eapply main_raised; [exact Hl|]. rewrite Hs.
    simpl in Hstep. exact Hstep. }
  split; [|split; [|split]].
  - destruct (name st) as [n|] eqn:En.
    + split.
      { intros ->. simpl in Hpre. injection Hpre as <- <-. done. }
      split; [|exact Hstep].
      destruct (for_infile_name _ _ _ _ _ _ Hpre) as [Heq | (e & He & Hn)].
      * rewrite En in Heq. done.
      * exists e. split; [done | congruence].
    + split; [|exact Hstep].
      destruct pre as [|e pre]; [done|].
      assert (is_Some (name st)) as [n Hn]
        by (by eapply for_infile_binds_name).
      congruence.
  - intros pre' e w' st' -> Hpre'.
    rewrite for_infile_app, Hpre' in Hpre. cbn [for_infile] in Hpre.
    destruct (iteration imgpath (w', st') e) as [[w2 st2]|] eqn:Ei; [|done].
    injection Hpre as <- <-. by apply iteration_name in Ei.
  - exact Hmain.
  - intros Hnil rootfolder output f frest l -> Hl Hs.
    apply for_f_raised. by eapply Hmain.
Qed.

(** The turn of [a.jpg] in the folder with the category-named file: the
    entry before it got past folder creation, and its path is recorded. *)
Lemma handler_records_current_name_witness :
  let st := Locals [] [] [] [] ["root/d/0.Panoramic-landscape"]
                   (Some "root/d/0.Panoramic-landscape") in
  for_infile (H := Demo.stages) "root/d" ["0.Panoramic-landscape"]
             (Demo.w_labelfile, init_locals)
    = Returned (Demo.w_labelfile_folders, st) /\
  make_category_folders "root/d" "a.jpg" labels Demo.w_labelfile_folders
    = (Demo.w_labelfile_folders, false) /\
  for_infile (H := Demo.stages) "root/d"
             (["0.Panoramic-landscape"] ++ "a.jpg" :: ["b.jpg"])
             (Demo.w_labelfile, init_locals) =
  for_infile (H := Demo.stages) "root/d" ["b.jpg"]
             (Demo.w_labelfile_folders,
              append_error "root/d/0.Panoramic-landscape" st).
Proof.
  intros st.
  assert (for_infile (H := Demo.stages) "root/d" ["0.Panoramic-landscape"]
                     (Demo.w_labelfile, init_locals)
          = Returned (Demo.w_labelfile_folders, st)) as H1
    by (vm_compute; reflexivity).
  assert (make_category_folders "root/d" "a.jpg" labels
                                Demo.w_labelfile_folders
          = (Demo.w_labelfile_folders, false)) as H2
    by (vm_compute; reflexivity).
  split; [exact H1|]. split; [exact H2|].
  exact (proj2 (proj2 (proj1
           (handler_records_current_name (H := Demo.stages)
              "root/d" "a.jpg" ["0.Panoramic-landscape"] ["b.jpg"]
              Demo.w_labelfile Demo.w_labelfile_folders
              Demo.w_labelfile_folders st H1 H2)))).
Defined.

(** The unbound case, run: in the first of two folders no category folder
    can be made; the first entry fails, the handler raises, and the run ends
    with no report written and the second folder untouched. *)
Example first_entry_failure_ends_the_run :
  option_map sort (listdir "root" Demo.w_readonly) = Some ["d"; "e"] /\
  (make_category_folders "root/d" "a.jpg" labels Demo.w_readonly).2 = false /\
  run (H := Demo.stages) "root" "out" Demo.w_readonly
    = Raised Demo.w_readonly.
Proof. repeat split; vm_compute; reflexivity. Qed.

(** ** Entries the spec calls ineligible *)

(** X10.  Whenever the loop over a folder's sorted listing ends normally,
    the two ledgers together have one row for each entry of the listing,
    whatever its name. *)
Lemma loop_rows_equal_entries `{Stages} (imgpath : string) (l : list string)
    (w w' : world) (st : locals) :
  for_infile imgpath (sort l) (w, init_locals) = Returned (w', st) ->
  length (imgname st) + length (error st) = length l.
Proof.
  intros [Hn _]%for_infile_rows. simpl in Hn. rewrite Hn, Nat.add_0_r.
  unfold sort. by rewrite merge_sort_Permutation.
Qed.

(** C1, on the code.  No entry is skipped.  A text file, which the spec's
    eligibility rule excludes, goes through folder creation and decoding and
    ends in the failure report; on a second run over a processed folder the
    seven category folders, excluded as well, all end there too. *)
Theorem ineligible_entries_are_not_skipped :
  spec_eligible "notes.txt" = false /\
  (exists w',
     run (H := Demo.stages) "root" "out" Demo.w_notes = Returned w' /\
     nodes w' !! "out/d-predict_error.csv"
       = Some (Table [ ("error_imgname", [CStr "root/d/notes.txt"]) ])) /\
  forallb (fun l => negb (spec_eligible l)) labels = true /\
  (exists w',
     run (H := Demo.stages) "root" "out" Demo.w_rerun = Returned w' /\
     nodes w' !! "out/d-predict_error.csv"
       = Some (Table [ ("error_imgname",
                        map (fun l => CStr (path_join "root/d" [l])) labels
                        ++ [CStr "root/d/b.png"]) ])).
Proof.
  split; [reflexivity|].
  split; [eexists; split; vm_compute; reflexivity|].
  split; [reflexivity|].
  eexists; split; vm_compute; reflexivity.
Qed.

(** C4, on the code.  The folder holding one text file has no eligible
    entry, yet its reports have one row between them: the rows cover every
    entry of the listing, not the eligible ones. *)
Theorem report_rows_cover_ineligible_entries :
  listdir "root/d" Demo.w_notes = Some ["notes.txt"] /\
  length (List.filter spec_eligible ["notes.txt"]) = 0 /\
  exists w' success failure,
    run (H := Demo.stages) "root" "out" Demo.w_notes = Returned w' /\
    nodes w' !! "out/d-Litton-7type-visual-landscape-predict_result.csv"
      = Some (Table success) /\
    nodes w' !! "out/d-predict_error.csv" = Some (Table failure) /\
    n_rows success + n_rows failure = 1.
Proof.
  split; [reflexivity|]. split; [reflexivity|].
  eexists _, _, _. split; [vm_compute; reflexivity|].
  split; [vm_compute; reflexivity|].
  split; vm_compute; reflexivity.
Qed.

(** * Further properties of the script *)

(** ** Every way a turn of the loop can end normally *)

Lemma iteration_cases `{Stages} (imgpath infile : string) (w w' : world)
    (st st' : locals) :
  iteration imgpath (w, st) infile = Returned (w', st') ->
  let p := path_join imgpath [infile] in
  (exists n, make_category_folders imgpath infile labels w = (w', false) /\
             name st = Some n /\ st' = append_error n st) \/
  (make_category_folders imgpath infile labels w = (w', true) /\
   classify w' p = None /\ st' = append_error p (set_name p st)) \/
  (exists w1 fc_out best i label,
     make_category_folders imgpath infile labels w = (w1, true) /\
     classify w1 p = Some fc_out /\
     transfer fc_out ≫= decide_category = Some (best, i) /\
     labels !! i = Some label /\
     st' = append_success infile label (str i) best (set_name p st) /\
     move p (path_join imgpath [label; infile]) w1 = Some w').
Proof.
  rewrite iteration_unfold. intros Hit p.
  destruct (make_category_folders imgpath infile labels w) as [w1 [|]] eqn:Em.
  - cbv zeta in Hit. fold p in Hit.
    destruct (classify w1 p) as [fc_out|] eqn:Ec.
    + apply else_suite_returned in Hit
        as (best & i & label & n & Hd & Hl & -> & Hn & Hmove).
      simpl in Hn. injection Hn as <-.
      right. right. by exists w1, fc_out, best, i, label.
    + injection Hit as <- <-. right. left. done.
  - unfold except_suite in Hit. destruct (name st) as [n|] eqn:En; [|done].
    injection Hit as <- <-. left. by exists n.
Qed.

Lemma append_nonempty_ne {A} (l k : list A) : k <> [] -> l ++ k <> l.
Proof.
  intros Hk Heq. apply (f_equal length) in Heq. rewrite length_app in Heq.
  destruct k; [done | simpl in Heq; lia].
Qed.

(** ** The ledgers the loop builds *)

(** X1.  Whatever the folder holds, when the per-entry loop ends normally
    the four columns of the success ledger have the same length, so
    [pd.DataFrame] accepts them (line 239 cannot raise on unequal
    columns). *)
Theorem success_columns_have_one_length `{Stages} (imgpath : string)
    (l : list string) (w w' : world) (st : locals) :
  for_infile imgpath l (w, init_locals) = Returned (w', st) ->
  length (imglabel st) = length (imgname st) /\
  length (imglabelnum st) = length (imgname st) /\
  length (rate st) = length (imgname st) /\
  DataFrame (success_dict st) = Some (success_dict st).
Proof.
  intros [_ Ha]%for_infile_rows. specialize (Ha aligned_init).
  destruct Ha as (H1 & H2 & H3).
  split; [done|]. split; [done|]. split; [done|].
  by apply DataFrame_success_dict.
Qed.

Lemma success_columns_have_one_length_witness :
  for_infile (H := Demo.stages) "root/d" ["a.jpg"; "b.png"; "c.bmp"]
             (Demo.w_scenario, init_locals)
    = Returned (Demo.w_rerun, Cases.st_scenario) /\
  length (imglabel Cases.st_scenario) = length (imgname Cases.st_scenario) /\
  length (imglabelnum Cases.st_scenario)
    = length (imgname Cases.st_scenario) /\
  length (rate Cases.st_scenario) = length (imgname Cases.st_scenario) /\
  DataFrame (success_dict Cases.st_scenario)
    = Some (success_dict Cases.st_scenario).
Proof.
  assert (for_infile (H := Demo.stages) "root/d" ["a.jpg"; "b.png"; "c.bmp"]
                     (Demo.w_scenario, init_locals)
          = Returned (Demo.w_rerun, Cases.st_scenario)) as H1
    by (vm_compute; reflexivity).
  split; [exact H1|].
  exact (success_columns_have_one_length (H := Demo.stages) "root/d"
           ["a.jpg"; "b.png"; "c.bmp"] Demo.w_scenario Demo.w_rerun
           Cases.st_scenario H1).
Defined.

Lemma for_infile_imgname `{Stages} (imgpath : string) (l : list string)
    (w w' : world) (st st' : locals) :
  for_infile imgpath l (w, st) = Returned (w', st') ->
  exists k, imgname st' = imgname st ++ k /\ sublist k l.
Proof.
  revert w st. induction l as [|e l IH]; intros w st; simpl.
  - intros [= <- <-]. exists []. by rewrite app_nil_r.
  - destruct (iteration imgpath (w, st) e) as [[w1 st1]|] eqn:Ei; [|done].
    intros Hl. destruct (IH _ _ Hl) as (k & Hk & Hsub).
    apply iteration_cases in Ei
      as [(n & _ & _ & ->) | [(_ & _ & ->) |
          (w2 & fc & best & i & label & _ & _ & _ & _ & -> & _)]];
      simpl in Hk.
    + exists k. split; [done | by apply sublist_cons].
    + exists k. split; [done | by apply sublist_cons].
    + exists (e :: k). split; [by rewrite Hk, <- app_assoc |].
      by apply sublist_skip.
Qed.

(** X2.  The file names of the success ledger appear in the order of the
    listing the loop went through, each entry at most once: the rows of the
    success report follow the sorted listing of the folder. *)
Theorem success_rows_follow_the_listing `{Stages} (imgpath : string)
    (l : list string) (w w' : world) (st : locals) :
  for_infile imgpath l (w, init_locals) = Returned (w', st) ->
  sublist (imgname st) l.
Proof.
  intros (k & Hk & Hsub)%for_infile_imgname. simpl in Hk. by rewrite Hk.
Qed.

Lemma success_rows_follow_the_listing_witness :
  for_infile (H := Demo.stages) "root/d" ["a.jpg"; "b.png"; "c.bmp"]
             (Demo.w_scenario, init_locals)
    = Returned (Demo.w_rerun, Cases.st_scenario) /\
  sublist (imgname Cases.st_scenario) ["a.jpg"; "b.png"; "c.bmp"].
Proof.
  assert (for_infile (H := Demo.stages) "root/d" ["a.jpg"; "b.png"; "c.bmp"]
                     (Demo.w_scenario, init_locals)
          = Returned (Demo.w_rerun, Cases.st_scenario)) as H1
    by (vm_compute; reflexivity).
  split; [exact H1|].
  exact (success_rows_follow_the_listing (H := Demo.stages) "root/d"
           ["a.jpg"; "b.png"; "c.bmp"] Demo.w_scenario Demo.w_rerun
           Cases.st_scenario H1).
Defined.

Lemma for_infile_labels `{Stages} (imgpath : string) (l : list string)
    (w w' : world) (st st' : locals) :
  for_infile imgpath l (w, st) = Returned (w', st') ->
  Forall2 label_of_number (imglabel st) (imglabelnum st) ->
  Forall2 label_of_number (imglabel st') (imglabelnum st').
Proof.
  revert w st. induction l as [|e l IH]; intros w st; simpl.
  - by intros [= <- <-].
  - destruct (iteration imgpath (w, st) e) as [[w1 st1]|] eqn:Ei; [|done].
    intros Hl Hst. apply (IH _ _ Hl).
    apply iteration_cases in Ei
      as [(n & _ & _ & ->) | [(_ & _ & ->) |
          (w2 & fc & best & i & label & _ & _ & _ & Hlabel & -> & _)]];
      simpl; [done | done |].
    apply Forall2_app; [done|]. constructor; [|constructor].
    exists i. split; [by eapply lookup_lt_Some | done].
Qed.

(** X3.  In every row of the success ledger the label and the label number
    belong together: the number is the decimal text of an index below 7 and
    the label is the category at that index. *)
Theorem success_rows_pair_label_and_number `{Stages} (imgpath : string)
    (l : list string) (w w' : world) (st : locals) :
  for_infile imgpath l (w, init_locals) = Returned (w', st) ->
  Forall2 label_of_number (imglabel st) (imglabelnum st).
Proof.
  intros Hl. apply (for_infile_labels _ _ _ _ _ _ Hl). constructor.
Qed.

Lemma success_rows_pair_label_and_number_witness :
  for_infile (H := Demo.stages) "root/d" ["a.jpg"; "b.png"; "c.bmp"]
             (Demo.w_scenario, init_locals)
    = Returned (Demo.w_rerun, Cases.st_scenario) /\
  Forall2 label_of_number (imglabel Cases.st_scenario)
          (imglabelnum Cases.st_scenario).
Proof.
  assert (for_infile (H := Demo.stages) "root/d" ["a.jpg"; "b.png"; "c.bmp"]
                     (Demo.w_scenario, init_locals)
          = Returned (Demo.w_rerun, Cases.st_scenario)) as H1
    by (vm_compute; reflexivity).
  split; [exact H1|].
  exact (success_rows_pair_label_and_number (H := Demo.stages) "root/d"
           ["a.jpg"; "b.png"; "c.bmp"] Demo.w_scenario Demo.w_rerun
           Cases.st_scenario H1).
Defined.

Lemma for_infile_error `{Stages} (imgpath : string) (l : list string)
    (w w' : world) (st st' : locals) :
  for_infile imgpath l (w, st) = Returned (w', st') ->
  forall n, n ∈ error st' ->
    n ∈ error st \/ name st = Some n \/
    exists e, e ∈ l /\ n = path_join imgpath [e].
Proof.
  revert w st. induction l as [|e l IH]; intros w st; simpl.
  - intros [= <- <-] n Hn. by left.
  - destruct (iteration imgpath (w, st) e) as [[w1 st1]|] eqn:Ei; [|done].
    intros Hl n Hn.
    destruct (IH _ _ Hl n Hn) as [Hin | [Hname | (e' & He' & ->)]].
    + apply iteration_cases in Ei
        as [(n' & _ & Hn' & ->) | [(_ & _ & ->) |
            (w2 & fc & best & i & label & _ & _ & _ & _ & -> & _)]];
        simpl in Hin.
      * apply elem_of_app in Hin as [Hin | ->%list_elem_of_singleton];
          [by left | right; by left].
      * apply elem_of_app in Hin as [Hin | ->%list_elem_of_singleton];
          [by left |]. right. right. exists e. split; [by left | done].
      * by left.
    + apply iteration_name in Ei. rewrite Ei in Hname.
      destruct (make_category_folders imgpath e labels w).2.
      * injection Hname as <-. right. right. exists e. split; [by left|done].
      * right. by left.
    + right. right. exists e'. split; [by right | done].
Qed.

(** X4.  Every record of the failure ledger is the path
    [os.path.join(imgpath, e)] of some entry [e] of the folder's listing:
    also a record made from a stale [name] names a file of this folder. *)
Theorem failure_records_name_entries_of_the_folder `{Stages}
    (imgpath : string) (l : list string) (w w' : world) (st : locals) :
  for_infile imgpath l (w, init_locals) = Returned (w', st) ->
  forall n, n ∈ error st -> exists e, e ∈ l /\ n = path_join imgpath [e].
Proof.
  intros Hl n Hn.
  destruct (for_infile_error _ _ _ _ _ _ Hl n Hn) as [Hin | [Hname | He]];
    [inversion Hin | done | done].
Qed.

Lemma failure_records_name_entries_of_the_folder_witness :
  for_infile (H := Demo.stages) "root/d" ["a.jpg"; "b.png"; "c.bmp"]
             (Demo.w_scenario, init_locals)
    = Returned (Demo.w_rerun, Cases.st_scenario) /\
  forall n, n ∈ error Cases.st_scenario ->
    exists e, e ∈ ["a.jpg"; "b.png"; "c.bmp"] /\ n = path_join "root/d" [e].
Proof.
  assert (for_infile (H := Demo.stages) "root/d" ["a.jpg"; "b.png"; "c.bmp"]
                     (Demo.w_scenario, init_locals)
          = Returned (Demo.w_rerun, Cases.st_scenario)) as H1
    by (vm_compute; reflexivity).
  split; [exact H1|].
  exact (failure_records_name_entries_of_the_folder (H := Demo.stages)
           "root/d" ["a.jpg"; "b.png"; "c.bmp"] Demo.w_scenario Demo.w_rerun
           Cases.st_scenario H1).
Defined.

(** ** What a turn does to the files *)

Lemma make_category_folders_adds_dirs (imgpath infile : string)
    (ls : list string) (w w1 : world) (b : bool) :
  make_category_folders imgpath infile ls w = (w1, b) ->
  forall q n, nodes w1 !! q = Some n -> n <> Dir -> nodes w !! q = Some n.
Proof.
  revert w. induction ls as [|l rest IH]; intros w; simpl.
  - by intros [= <- <-].
  - destruct (String.eqb infile l); [apply IH|].
    destruct (isdir w (path_join imgpath [l])); simpl; [apply IH|].
    destruct (mkdir (path_join imgpath [l]) w) as [w'|] eqn:Em.
    + intros Hrest q n Hq Hn. specialize (IH _ Hrest q n Hq Hn).
      apply mkdir_nodes in Em as (_ & Hnodes & _). rewrite Hnodes in IH.
      destruct (decide (path_join imgpath [l] = q)) as [Heq|Hne].
      * subst q. rewrite lookup_insert_eq in IH. congruence.
      * by rewrite lookup_insert_ne in IH.
    + by intros [= <- <-].
Qed.



(** *** Lengths of joined paths *)

Lemma join_step_length (a b : string) :
  startswith_sep b = false ->
  String.length a + String.length b <= String.length (join_step a b)
  /\ String.length (join_step a b) <= String.length a + 1 + String.length b.
Proof.
  intros Hb. unfold join_step. rewrite Hb.
  destruct (String.eqb a "" || endswith_sep a);
    rewrite !length_append; simpl; lia.
Qed.

Lemma labels_length (i : nat) (label : string) :
  labels !! i = Some label ->
  startswith_sep label = false /\ 2 <= String.length label.
Proof.
  intros Hl.
  do 7 (destruct i as [|i];
        [injection Hl as <-; split; [reflexivity | simpl; lia]|]).
  done.
Qed.

Lemma split_last_no_sep (p : string) :
  (fst (split_last p) = "" -> has_sep p = false) /\
  has_sep (snd (split_last p)) = false.
Proof.
  induction p as [|c r [IH1 IH2]]; simpl; [done|].
  destruct (split_last r) as [h t] eqn:Es. simpl in *.
  destruct (String.eqb_spec h "") as [->|Hne]; simpl.
  - destruct (is_sep c) eqn:Ec; simpl.
    + split; [done|]. by apply IH1.
    + split; [intros _; by apply IH1 | ]. rewrite Ec. by apply IH1.
  - split; [done | exact IH2].
Qed.

Lemma no_sep_no_leading_sep (s : string) :
  has_sep s = false -> startswith_sep s = false.
Proof. destruct s as [|c r]; simpl; [done|]. by intros [? _]%orb_false_iff. Qed.

Lemma shutil_basename_no_leading_sep (p : string) :
  startswith_sep (shutil_basename p) = false.
Proof.
  apply no_sep_no_leading_sep. unfold shutil_basename, basename.
  apply split_last_no_sep.
Qed.

(** The destination of a move is longer than its source, also when the
    destination is a directory and the file lands inside it. *)
Lemma destination_longer (imgpath infile label : string) (i : nat) :
  labels !! i = Some label ->
  startswith_sep infile = false ->
  let p := path_join imgpath [infile] in
  let newpath := path_join imgpath [label; infile] in
  String.length p < String.length newpath /\
  String.length p < String.length (path_join newpath [shutil_basename p]).
Proof.
  intros [Hsep Hlen]%labels_length Hin p newpath.
  unfold p, newpath, path_join. simpl.
  pose proof (join_step_length imgpath infile Hin) as [_ Hp].
  pose proof (join_step_length imgpath label Hsep) as [Hl _].
  pose proof (join_step_length (join_step imgpath label) infile Hin)
    as [Hn _].
  pose proof (join_step_length
                (join_step (join_step imgpath label) infile)
                (shutil_basename (join_step imgpath infile))
                (shutil_basename_no_leading_sep _)) as [Hb _].
  lia.
Qed.

Lemma move_file_nodes (src dst : string) (w w' : world) (b : string) :
  nodes w !! src = Some (File b) ->
  move src dst w = Some w' ->
  exists real_dst,
    (real_dst = dst \/ real_dst = path_join dst [shutil_basename src]) /\
    nodes w' = <[real_dst := File b]> (delete src (nodes w)).
Proof.
  unfold move. intros Hsrc.
  set (real_dst := if isdir w dst then _ else _).
  destruct (isdir w dst && exists_ w real_dst); [done|].
  rewrite Hsrc.
  destruct (isdir w real_dst || negb (creatable w real_dst)); [done|].
  intros [= <-]. exists real_dst. split; [|done].
  unfold real_dst. destruct (isdir w dst); [by right | by left].
Qed.

Lemma classify_file `{Stages} (w : world) (p : string)
    (fc_out : list (list Q)) :
  classify w p = Some fc_out -> exists b, nodes w !! p = Some (File b).
Proof.
  unfold classify, read_file.
  destruct (nodes w !! p) as [[]|]; try done. by eexists.
Qed.

(** X6.  A turn that ends with a success row has moved the entry's file:
    its bytes are now found under the category folder of the recorded label,
    at [imgpath/label/infile] (or inside that path, should a directory sit
    there), and nothing is left at the file's original path. *)
Theorem successful_turn_relocates_the_file `{Stages}
    (imgpath infile : string) (w w' : world) (st st' : locals) :
  iteration imgpath (w, st) infile = Returned (w', st') ->
  imgname st' = imgname st ++ [infile] ->
  startswith_sep infile = false ->
  exists bytes label dst,
    read_file w (path_join imgpath [infile]) = Some bytes /\
    label ∈ labels /\
    imglabel st' = imglabel st ++ [label] /\
    (dst = path_join imgpath [label; infile] \/
     dst = path_join imgpath
             [label; infile; shutil_basename (path_join imgpath [infile])]) /\
    read_file w' dst = Some bytes /\
    nodes w' !! path_join imgpath [infile] = None.
Proof.
  intros Hit Hgrew Hsep.
  apply iteration_cases in Hit
    as [(n & _ & _ & ->) | [(_ & _ & ->) |
        (w1 & fc & best & i & label & Hm & Hc & _ & Hlabel & -> & Hmove)]].
  - simpl in Hgrew. symmetry in Hgrew. by apply append_nonempty_ne in Hgrew.
  - simpl in Hgrew. symmetry in Hgrew. by apply append_nonempty_ne in Hgrew.
  - destruct (classify_file _ _ _ Hc) as [b Hb].
    destruct (move_file_nodes _ _ _ _ _ Hb Hmove) as (dst & Hdst & Hn).
    destruct (destination_longer imgpath infile label i Hlabel Hsep)
      as [Hl1 Hl2].
    assert (dst <> path_join imgpath [infile]) as Hne.
    { intros Heq. destruct Hdst as [-> | ->].
      - rewrite Heq in Hl1. lia.
      - rewrite Heq in Hl2. lia. }
    exists b, label, dst.
    split.
    { unfold read_file.
      by rewrite (make_category_folders_adds_dirs _ _ _ _ _ _ Hm _ _ Hb). }
    split; [by eapply list_elem_of_lookup_2|].
    split; [done|]. split; [exact Hdst|].
    split.
    + unfold read_file. by rewrite Hn, lookup_insert_eq.
    + rewrite Hn, lookup_insert_ne by done. apply lookup_delete_eq.
Qed.

Lemma successful_turn_relocates_the_file_witness :
  let st' := Locals ["a.jpg"] ["2.Detail-landscape"] ["2"] [91 # 100] []
                    (Some "root/d/a.jpg") in
  iteration (H := Demo.stages) "root/d" (Demo.w_scenario, init_locals) "a.jpg"
    = Returned (Demo.w_scenario_a_moved, st') /\
  imgname st' = imgname init_locals ++ ["a.jpg"] /\
  startswith_sep "a.jpg" = false /\
  exists bytes label dst,
    read_file Demo.w_scenario (path_join "root/d" ["a.jpg"]) = Some bytes /\
    label ∈ labels /\
    imglabel st' = imglabel init_locals ++ [label] /\
    (dst = path_join "root/d" [label; "a.jpg"] \/
     dst = path_join "root/d"
             [label; "a.jpg"; shutil_basename (path_join "root/d" ["a.jpg"])])
    /\
    read_file Demo.w_scenario_a_moved dst = Some bytes /\
    nodes Demo.w_scenario_a_moved !! path_join "root/d" ["a.jpg"] = None.
Proof.
  intros st'.
  assert (iteration (H := Demo.stages) "root/d" (Demo.w_scenario, init_locals)
                    "a.jpg" = Returned (Demo.w_scenario_a_moved, st')) as H1
    by (vm_compute; reflexivity).
  assert (imgname st' = imgname init_locals ++ ["a.jpg"]) as H2
    by reflexivity.
  assert (startswith_sep "a.jpg" = false) as H3 by reflexivity.
  split; [exact H1|]. split; [exact H2|]. split; [exact H3|].
  exact (successful_turn_relocates_the_file (H := Demo.stages) "root/d"
           "a.jpg" Demo.w_scenario Demo.w_scenario_a_moved init_locals st'
           H1 H2 H3).
Defined.

Lemma content_from_trans (w1 w2 w3 : world) :
  content_from w1 w2 -> content_from w2 w3 -> content_from w1 w3.
Proof.
  intros H12 H23 q b Hq. destruct (H23 _ _ Hq) as [q1 Hq1]. eauto.
Qed.

Lemma iteration_content `{Stages} (imgpath infile : string) (w w' : world)
    (st st' : locals) :
  iteration imgpath (w, st) infile = Returned (w', st') -> content_from w w'.
Proof.
  intros Hit q b Hq.
  apply iteration_cases in Hit
    as [(n & Hm & _ & _) | [(Hm & _ & _) |
        (w1 & fc & best & i & label & Hm & Hc & _ & _ & _ & Hmove)]].
  - exists q. by eapply make_category_folders_adds_dirs.
  - exists q. by eapply make_category_folders_adds_dirs.
  - destruct (classify_file _ _ _ Hc) as [b0 Hb0].
    destruct (move_file_nodes _ _ _ _ _ Hb0 Hmove) as (dst & _ & Hn).
    rewrite Hn in Hq.
    destruct (decide (dst = q)) as [Heq|Hne].
    + subst q. rewrite lookup_insert_eq in Hq. injection Hq as <-.
      exists (path_join imgpath [infile]).
      by eapply make_category_folders_adds_dirs.
    + rewrite lookup_insert_ne in Hq by done.
      destruct (decide (path_join imgpath [infile] = q)) as [Heq|Hne'].
      * subst q. by rewrite lookup_delete_eq in Hq.
      * rewrite lookup_delete_ne in Hq by done.
        exists q. by eapply make_category_folders_adds_dirs.
Qed.

(** X7.  The per-entry loop neither alters nor invents image content: every
    regular file found after the loop carries the bytes of a regular file
    that was there before it (at the same or, once moved, at another
    path). *)
Theorem loop_keeps_file_contents `{Stages} (imgpath : string)
    (l : list string) (w w' : world) (st st' : locals) :
  for_infile imgpath l (w, st) = Returned (w', st') ->
  forall q b, nodes w' !! q = Some (File b) ->
              exists q0, nodes w !! q0 = Some (File b).
Proof.
  revert w st. induction l as [|e l IH]; intros w st; simpl.
  - intros [= <- <-] q b Hq. by exists q.
  - destruct (iteration imgpath (w, st) e) as [[w1 st1]|] eqn:Ei; [|done].
    intros Hl. eapply content_from_trans.
    + by eapply iteration_content.
    + exact (IH _ _ Hl).
Qed.

Lemma loop_keeps_file_contents_witness :
  for_infile (H := Demo.stages) "root/d" ["a.jpg"; "b.png"; "c.bmp"]
             (Demo.w_scenario, init_locals)
    = Returned (Demo.w_rerun, Cases.st_scenario) /\
  forall q b, nodes Demo.w_rerun !! q = Some (File b) ->
              exists q0, nodes Demo.w_scenario !! q0 = Some (File b).
Proof.
  assert (for_infile (H := Demo.stages) "root/d" ["a.jpg"; "b.png"; "c.bmp"]
                     (Demo.w_scenario, init_locals)
          = Returned (Demo.w_rerun, Cases.st_scenario)) as H1
    by (vm_compute; reflexivity).
  split; [exact H1|].
  exact (loop_keeps_file_contents (H := Demo.stages) "root/d"
           ["a.jpg"; "b.png"; "c.bmp"] Demo.w_scenario Demo.w_rerun
           init_locals Cases.st_scenario H1).
Defined.

(** ** Folders at the edges *)

(** X8.  For a folder without entries [main] makes no category folder: it
    writes the success table with its four headers and no row, writes no
    failure table, and changes nothing else. *)
Theorem empty_folder_gets_the_header_table `{Stages}
    (csv_path error_csv_path imgpath : string) (w : world) :
  listdir imgpath w = Some [] ->
  writable w csv_path = true ->
  main csv_path error_csv_path imgpath w =
  Returned
    (set_nodes
       (<[csv_path := Table [ ("imgname", []); ("predict_label", []);
                              ("predict_label_num", []);
                              ("probability", []) ]]> (nodes w)) w).
Proof.
  intros Hl Hw. unfold main. rewrite Hl.
  change (sort []) with (@nil string). cbn [for_infile].
  unfold report, write_table.
  rewrite (DataFrame_success_dict init_locals aligned_init). simpl.
  by rewrite (to_csv_writable csv_path _ w Hw).
Qed.

Lemma empty_folder_gets_the_header_table_witness :
  listdir "root/d" Demo.w_empty = Some [] /\
  writable Demo.w_empty "out/d.csv" = true /\
  main (H := Demo.stages) "out/d.csv" "out/d-error.csv" "root/d" Demo.w_empty =
  Returned
    (set_nodes
       (<["out/d.csv" := Table [ ("imgname", []); ("predict_label", []);
                                 ("predict_label_num", []);
                                 ("probability", []) ]]> (nodes Demo.w_empty))
       Demo.w_empty).
Proof.
  assert (listdir "root/d" Demo.w_empty = Some []) as H1 by reflexivity.
  assert (writable Demo.w_empty "out/d.csv" = true) as H2 by reflexivity.
  split; [exact H1|]. split; [exact H2|].
  exact (empty_folder_gets_the_header_table (H := Demo.stages) "out/d.csv"
           "out/d-error.csv" "root/d" Demo.w_empty H1 H2).
Defined.

Lemma for_f_app `{Stages} (rootfolder output : string)
    (pre rest : list string) (w : world) :
  for_f rootfolder output (pre ++ rest) w =
  match for_f rootfolder output pre w with
  | Returned w' => for_f rootfolder output rest w'
  | Raised w' => Raised w'
  end.
Proof.
  revert w. induction pre as [|f pre IH]; intros w; simpl; [done|].
  destruct (main _ _ _ w); [apply IH | done].
Qed.

(** X9.  The entries of the root folder are all taken for folders.  When
    the loop over them comes to one that is no directory, [os.listdir]
    raises in [main] (line 192) outside any handler: the run ends there, with
    the file system as the folders before it left it, and the folders after
    it are not processed. *)
Theorem entry_that_is_no_folder_ends_the_run `{Stages}
    (rootfolder output f : string) (pre rest : list string) (w w1 : world) :
  for_f rootfolder output pre w = Returned w1 ->
  isdir w1 (path_join rootfolder [f]) = false ->
  for_f rootfolder output (pre ++ f :: rest) w = Raised w1.
Proof.
  intros Hpre Hf. rewrite for_f_app, Hpre. cbn [for_f].
  unfold main, listdir. by rewrite Hf.
Qed.

Lemma entry_that_is_no_folder_ends_the_run_witness :
  for_f (H := Demo.stages) "root" "out" ["a"] Cases.w_file_in_root
    = Returned Cases.w_file_in_root_a /\
  isdir Cases.w_file_in_root_a (path_join "root" ["b.txt"]) = false /\
  for_f (H := Demo.stages) "root" "out" (["a"] ++ "b.txt" :: ["c"])
        Cases.w_file_in_root
    = Raised Cases.w_file_in_root_a.
Proof.
  assert (for_f (H := Demo.stages) "root" "out" ["a"] Cases.w_file_in_root
          = Returned Cases.w_file_in_root_a) as H1
    by (vm_compute; reflexivity).
  assert (isdir Cases.w_file_in_root_a (path_join "root" ["b.txt"]) = false)
    as H2 by reflexivity.
  split; [exact H1|]. split; [exact H2|].
  exact (entry_that_is_no_folder_ends_the_run (H := Demo.stages) "root" "out"
           "b.txt" ["a"] ["c"] Cases.w_file_in_root Cases.w_file_in_root_a
           H1 H2).
Defined.

(** The scenario folder: two success rows and one failure row for three
    entries. *)
Lemma loop_rows_equal_entries_witness :
  for_infile (H := Demo.stages) "root/d" (sort ["c.bmp"; "a.jpg"; "b.png"])
             (Demo.w_scenario, init_locals)
    = Returned (Demo.w_rerun, Cases.st_scenario) /\
  length (imgname Cases.st_scenario) + length (error Cases.st_scenario)
    = length ["c.bmp"; "a.jpg"; "b.png"].
Proof.
  assert (for_infile (H := Demo.stages) "root/d"
                     (sort ["c.bmp"; "a.jpg"; "b.png"])
                     (Demo.w_scenario, init_locals)
          = Returned (Demo.w_rerun, Cases.st_scenario)) as H1
    by (vm_compute; reflexivity).
  split; [exact H1|].
  exact (loop_rows_equal_entries (H := Demo.stages) "root/d"
           ["c.bmp"; "a.jpg"; "b.png"] Demo.w_scenario Demo.w_rerun
           Cases.st_scenario H1).
Defined.

(** ** The network's answer at the edges *)

(** X11.  Only the first seven scores of the network's row are looked at:
    scores that follow them change neither the index nor the confidence the
    decision step answers, so a larger score among them is never chosen. *)
Theorem scores_beyond_the_seventh_are_ignored (row extra : list Q) :
  length row = length labels ->
  transfer [row ++ extra] = Some row /\
  transfer [row ++ extra] ≫= decide_category
    = transfer [row] ≫= decide_category.
Proof.
  intros Hlen.
  assert (transfer [row ++ extra] = Some row) as Ht.
  { do 7 (destruct row as [|? row]; [done|]). by destruct row. }
  split; [exact Ht|]. by rewrite Ht, (transfer_single_row row Hlen).
Qed.

Lemma scores_beyond_the_seventh_are_ignored_witness :
  length Demo.detail_row = length labels /\
  transfer [Demo.detail_row ++ [99 # 100]] = Some Demo.detail_row /\
  transfer [Demo.detail_row ++ [99 # 100]] ≫= decide_category
    = transfer [Demo.detail_row] ≫= decide_category.
Proof.
  assert (length Demo.detail_row = length labels) as H1 by reflexivity.
  split; [exact H1|].
  exact (scores_beyond_the_seventh_are_ignored Demo.detail_row [99 # 100] H1).
Defined.

Lemma transfer_short (row : list Q) (more : list (list Q)) :
  length row < length labels ->
  transfer (row :: more) = None.
Proof.
  intros Hlen.
  do 7 (destruct row as [|? row]; [reflexivity|]).
  simpl in Hlen. lia.
Qed.

(** X12.  Unless the network answers a first row of at least seven scores,
    the turn cannot end normally: building [transfer_list] or taking its
    maximum raises in the [else] suite, outside the handler, so the
    exception leaves the loop, no ledger gets a row and the remaining
    entries are not processed. *)
Theorem short_network_output_leaves_the_loop `{Stages}
    (imgpath infile : string) (rest : list string) (w w1 : world)
    (st : locals) (fc_out : list (list Q)) :
  make_category_folders imgpath infile labels w = (w1, true) ->
  classify w1 (path_join imgpath [infile]) = Some fc_out ->
  (forall row, fc_out !! 0%nat = Some row -> length row < length labels) ->
  for_infile imgpath (infile :: rest) (w, st) = Raised w1.
Proof.
  intros Hm Hc Hshort. cbn [for_infile].
  rewrite iteration_unfold, Hm. cbv zeta. rewrite Hc.
  assert (transfer fc_out ≫= decide_category = None) as Hd.
  { destruct fc_out as [|row more]; [reflexivity|].
    by rewrite (transfer_short row more (Hshort row eq_refl)). }
  unfold else_suite. by rewrite Hd.
Qed.

Lemma short_network_output_leaves_the_loop_witness :
  make_category_folders "root/d" "a.jpg" labels Demo.w_scenario
    = (Demo.w_scenario_folders, true) /\
  classify (H := Cases.two_outputs) Demo.w_scenario_folders
           (path_join "root/d" ["a.jpg"]) = Some [[1 # 2; 1 # 2]] /\
  (forall row, [[1 # 2; 1 # 2]] !! 0%nat = Some row ->
               length row < length labels) /\
  for_infile (H := Cases.two_outputs) "root/d" ["a.jpg"; "b.png"]
             (Demo.w_scenario, init_locals)
    = Raised Demo.w_scenario_folders.
Proof.
  assert (make_category_folders "root/d" "a.jpg" labels Demo.w_scenario
          = (Demo.w_scenario_folders, true)) as H1
    by (vm_compute; reflexivity).
  assert (classify (H := Cases.two_outputs) Demo.w_scenario_folders
                   (path_join "root/d" ["a.jpg"]) = Some [[1 # 2; 1 # 2]])
    as H2 by (vm_compute; reflexivity).
  assert (forall row, [[1 # 2; 1 # 2]] !! 0%nat = Some row ->
                      length row < length labels) as H3
    by (intros row [= <-]; simpl; lia).
  split; [exact H1|]. split; [exact H2|]. split; [exact H3|].
  exact (short_network_output_leaves_the_loop (H := Cases.two_outputs)
           "root/d" "a.jpg" ["b.png"] Demo.w_scenario Demo.w_scenario_folders
           init_locals [[1 # 2; 1 # 2]] H1 H2 H3).
Defined.

(** ** The paths of the reports *)

Lemma append_assoc (a b c : string) : (a +:+ b) +:+ c = a +:+ (b +:+ c).
Proof.
  induction a as [|x a IH]; [done|].
  change (String x ((a +:+ b) +:+ c) = String x (a +:+ (b +:+ c))).
  congruence.
Qed.

Lemma append_empty_r (a : string) : a +:+ "" = a.
Proof.
  induction a as [|x a IH]; [done|].
  change (String x (a +:+ "") = String x a). congruence.
Qed.

Lemma append_cancel_l (x a b : string) : x +:+ a = x +:+ b -> a = b.
Proof.
  induction x as [|c x IH]; [done|].
  change (String c (x +:+ a) = String c (x +:+ b) -> a = b).
  intros [= ?]. auto.
Qed.

Lemma append_inj_length (a b x y : string) :
  String.length a = String.length b ->
  a +:+ x = b +:+ y -> a = b /\ x = y.
Proof.
  revert b. induction a as [|c a IH]; intros [|d b]; simpl; try done.
  intros [= Hlen].
  change (String c (a +:+ x) = String d (b +:+ y) ->
          String c a = String d b /\ x = y).
  intros [= -> Heq]. destruct (IH _ Hlen Heq) as [-> ->]. done.
Qed.

(** Two texts with suffixes of one length are equal only if the suffixes
    are. *)
Lemma append_suffix_inj (a b x y : string) :
  String.length x = String.length y ->
  a +:+ x = b +:+ y -> a = b /\ x = y.
Proof.
  intros Hlen Heq. apply append_inj_length; [|done].
  apply (f_equal String.length) in Heq. rewrite !length_append in Heq. lia.
Qed.

Lemma startswith_sep_append (f s : string) :
  startswith_sep s = false ->
  startswith_sep (f +:+ s) = startswith_sep f.
Proof. by destruct f. Qed.

(** The report path of a folder name that does not begin with the
    separator: a prefix fixed by [output], then the name and the suffix. *)
Lemma report_path_shape (output f suffix : string) :
  startswith_sep f = false ->
  startswith_sep suffix = false ->
  path_join output [f +:+ suffix] = child_prefix output +:+ (f +:+ suffix).
Proof.
  intros Hf Hs. unfold path_join, child_prefix, join_step. simpl.
  rewrite (startswith_sep_append f suffix Hs), Hf.
  destruct (String.eqb output "" || endswith_sep output).
  - by rewrite append_empty_r.
  - by rewrite append_assoc.
Qed.

(** X13.  For every folder name the success report and the failure report
    have different paths: writing the failure table never overwrites the
    success table just written. *)
Theorem reports_of_a_folder_differ (output f : string) :
  csv_path_of output f <> error_csv_path_of output f.
Proof.
  unfold csv_path_of, error_csv_path_of. intros Heq.
  destruct (startswith_sep f) eqn:Hf.
  - unfold path_join, join_step in Heq. simpl in Heq.
    rewrite !startswith_sep_append, Hf in Heq by reflexivity.
    by apply append_cancel_l in Heq.
  - rewrite !report_path_shape in Heq by (done || reflexivity).
    by do 2 apply append_cancel_l in Heq.
Qed.

(** X14.  Two different folder names never share a report: their success
    reports differ, their failure reports differ, and the success report of
    one is not the failure report of the other.  A folder's reports are
    therefore not overwritten when a later folder is processed. *)
Theorem reports_of_two_folders_differ (output f1 f2 : string) :
  startswith_sep f1 = false ->
  startswith_sep f2 = false ->
  f1 <> f2 ->
  csv_path_of output f1 <> csv_path_of output f2 /\
  error_csv_path_of output f1 <> error_csv_path_of output f2 /\
  csv_path_of output f1 <> error_csv_path_of output f2.
Proof.
  intros H1 H2 Hne. unfold csv_path_of, error_csv_path_of.
  rewrite !report_path_shape by (done || reflexivity).
  split; [|split]; intros Heq; apply append_cancel_l in Heq.
  - apply append_suffix_inj in Heq as [? _]; done.
  - apply append_suffix_inj in Heq as [? _]; done.
  - change "-Litton-7type-visual-landscape-predict_result.csv"
      with ("-Litton-7type-visual-landscape-" +:+ "predict_result.csv")
      in Heq.
    rewrite <- append_assoc in Heq.
    apply append_suffix_inj in Heq as [_ ?]; done.
Qed.

Lemma reports_of_two_folders_differ_witness :
  startswith_sep "d" = false /\
  startswith_sep "d-Litton-7type-visual-landscape" = false /\
  "d" <> "d-Litton-7type-visual-landscape" /\
  csv_path_of "out" "d"
    <> csv_path_of "out" "d-Litton-7type-visual-landscape" /\
  error_csv_path_of "out" "d"
    <> error_csv_path_of "out" "d-Litton-7type-visual-landscape" /\
  csv_path_of "out" "d"
    <> error_csv_path_of "out" "d-Litton-7type-visual-landscape".
Proof.
  assert (startswith_sep "d" = false) as H1 by reflexivity.
  assert (startswith_sep "d-Litton-7type-visual-landscape" = false) as H2
    by reflexivity.
  assert ("d" <> "d-Litton-7type-visual-landscape") as H3 by discriminate.
  split; [exact H1|]. split; [exact H2|]. split; [exact H3|].
  exact (reports_of_two_folders_differ "out" "d"
           "d-Litton-7type-visual-landscape" H1 H2 H3).
Defined.

(** ** Before the model is loaded *)

(** X15.  Whenever the device check lets the script go on, the device is
    one of four: [cpu]; [mps], only on Darwin with the backend available and
    the argument [auto]; [cuda:0], only off Darwin with CUDA available and
    the argument [auto]; or [cuda:] followed by the argument itself, only
    off Darwin and when the argument is all digits. *)
Theorem selected_device_is_cpu_mps_or_cuda `{StrMethods} (device : string)
    (m : machine) (d : string) :
  select_device device m = inl d ->
  d = "cpu" \/
  (d = "mps" /\ system m = "Darwin" /\ mps_is_available m = true /\
   lower device = "auto") \/
  (d = "cuda:0" /\ system m <> "Darwin" /\ cuda_is_available m = true /\
   lower device = "auto") \/
  (d = "cuda:" +:+ device /\ system m <> "Darwin" /\ isdigit device = true).
Proof.
  unfold select_device.
  destruct (String.eqb_spec (lower device) "auto") as [Hauto|_].
  - destruct (String.eqb_spec (system m) "Darwin") as [Hsys|Hsys].
    + destruct (mps_is_available m) eqn:Hmps; intros [= <-];
        [right; left; done | by left].
    + destruct (cuda_is_available m) eqn:Hcuda; intros [= <-];
        [right; right; left; done | by left].
  - destruct (String.eqb (lower device) "cpu"); [intros [= <-]; by left|].
    destruct (isdigit device) eqn:Hdig; simpl; [|done].
    destruct (String.eqb_spec (system m) "Darwin") as [Hsys|Hsys]; [done|].
    intros [= <-]. right. right. right. done.
Qed.

Lemma selected_device_is_cpu_mps_or_cuda_witness :
  select_device (H := Ascii_text.methods) "1" Cases.linux_gpu = inl "cuda:1" /\
  ("cuda:1" = "cpu" \/
   ("cuda:1" = "mps" /\ system Cases.linux_gpu = "Darwin" /\
    mps_is_available Cases.linux_gpu = true /\
    lower (StrMethods := Ascii_text.methods) "1" = "auto") \/
   ("cuda:1" = "cuda:0" /\ system Cases.linux_gpu <> "Darwin" /\
    cuda_is_available Cases.linux_gpu = true /\
    lower (StrMethods := Ascii_text.methods) "1" = "auto") \/
   ("cuda:1" = "cuda:" +:+ "1" /\ system Cases.linux_gpu <> "Darwin" /\
    isdigit (StrMethods := Ascii_text.methods) "1" = true)).
Proof.
  assert (select_device (H := Ascii_text.methods) "1" Cases.linux_gpu
          = inl "cuda:1") as H1 by reflexivity.
  split; [exact H1|].
  exact (selected_device_is_cpu_mps_or_cuda (H := Ascii_text.methods) "1"
           Cases.linux_gpu "cuda:1" H1).
Defined.

(** X16.  On Darwin the script never settles on a CUDA device: the device
    is [mps] or [cpu], and an argument that is all digits (and is neither
    [auto] nor [cpu] in any letter case) makes it exit with status 1. *)
Theorem darwin_never_gets_cuda `{StrMethods} (device : string) (m : machine) :
  system m = "Darwin" ->
  (forall d, select_device device m = inl d -> d = "mps" \/ d = "cpu") /\
  (lower device <> "auto" -> lower device <> "cpu" ->
   select_device device m = inr 1%Z).
Proof.
  intros Hsys. unfold select_device. rewrite Hsys. simpl. split.
  - intros d.
    destruct (String.eqb (lower device) "auto").
    + destruct (mps_is_available m); intros [= <-]; [by left | by right].
    + destruct (String.eqb (lower device) "cpu"); [intros [= <-]; by right|].
      by destruct (isdigit device).
  - intros Hauto Hcpu.
    destruct (String.eqb_spec (lower device) "auto"); [done|].
    destruct (String.eqb_spec (lower device) "cpu"); [done|].
    by destruct (isdigit device).
Qed.

Lemma darwin_never_gets_cuda_witness :
  system Cases.mac = "Darwin" /\
  select_device (H := Ascii_text.methods) "0" Cases.mac = inr 1%Z /\
  select_device (H := Ascii_text.methods) "AUTO" Cases.mac = inl "mps".
Proof.
  assert (system Cases.mac = "Darwin") as H1 by reflexivity.
  split; [exact H1|]. split; [|reflexivity].
  apply (darwin_never_gets_cuda (H := Ascii_text.methods) "0" Cases.mac H1);
    discriminate.
Defined.

Lemma explicit_model_must_be_a_regular_file_aux
    (download : string -> world -> option world) (path : string) (w : world) :
  check_model download (Some path) w =
  if isfile w path then Continue path w else SysExit 1 w.
Proof.
  unfold check_model, exists_, isfile.
  by destruct (nodes w !! path) as [[]|].
Qed.

(** X17.  A model path given on the command line is accepted exactly when
    it names a regular file.  A missing path and a directory both make the
    script exit with status 1; either way nothing is downloaded and the file
    system is left as it is. *)
Theorem explicit_model_must_be_a_regular_file
    (download : string -> world -> option world) (path : string) (w : world) :
  check_model download (Some path) w =
  if isfile w path then Continue path w else SysExit 1 w.
Proof.
  unfold check_model, exists_, isfile.
  destruct (nodes w !! path) as [n|]; [|reflexivity].
  destruct n; reflexivity.
Qed.

(** X18.  The checks before loading exit with status 1 only.  The model
    file is looked at before the device: when no model is given, the default
    one is absent and the device argument is refused, the script exits only
    after the download has taken place, in the file system the download
    left. *)
Theorem bootstrap_exits_with_status_one `{StrMethods}
    (download : string -> world -> option world) (model : option string)
    (device : string) (m : machine) (w w' : world) (status : Z) :
  bootstrap download model device m w = SysExit status w' ->
  status = 1%Z /\
  (w' = w \/
   (model = None /\ exists_ w default_model = false /\
    download default_model w = Some w' /\
    select_device device m = inr 1%Z)).
Proof.
  unfold bootstrap.
  assert (forall s, select_device device m = inr s -> s = 1%Z) as Hone.
  { unfold select_device. intros s.
    destruct (String.eqb (lower device) "auto");
      [by destruct (String.eqb (system m) "Darwin")|].
    destruct (String.eqb (lower device) "cpu"); [done|].
    destruct (isdigit device); simpl; [|by intros [= <-]].
    destruct (String.eqb (system m) "Darwin"); [by intros [= <-] | done]. }
  destruct model as [path|].
  - rewrite explicit_model_must_be_a_regular_file_aux.
    destruct (isfile w path).
    + destruct (select_device device m) as [d|s] eqn:Es; [done|].
      intros [= <- <-]. split; [by apply Hone | by left].
    + intros [= <- <-]. split; [done | by left].
  - unfold check_model.
    destruct (exists_ w default_model) eqn:Ex; simpl.
    + destruct (select_device device m) as [d|s] eqn:Es; [done|].
      intros [= <- <-]. split; [by apply Hone | by left].
    + destruct (download default_model w) as [w1|] eqn:Ed; [|done].
      destruct (select_device device m) as [d|s] eqn:Es; [done|].
      intros [= <- <-]. pose proof (Hone _ eq_refl) as ->.
      split; [done|]. right. done.
Qed.

Lemma bootstrap_exits_with_status_one_witness :
  let w' := set_nodes (<[default_model := File "weights"]> (nodes Demo.w_empty))
                      Demo.w_empty in
  bootstrap (H := Ascii_text.methods) Cases.fetch None "gpu" Cases.linux_gpu
            Demo.w_empty = SysExit 1 w' /\
  1%Z = 1%Z /\
  (w' = Demo.w_empty \/
   (None = @None string /\ exists_ Demo.w_empty default_model = false /\
    Cases.fetch default_model Demo.w_empty = Some w' /\
    select_device (H := Ascii_text.methods) "gpu" Cases.linux_gpu
      = inr 1%Z)).
Proof.
  intros w'.
  assert (bootstrap (H := Ascii_text.methods) Cases.fetch None "gpu"
                    Cases.linux_gpu Demo.w_empty = SysExit 1 w') as H1
    by reflexivity.
  split; [exact H1|].
  exact (bootstrap_exits_with_status_one (H := Ascii_text.methods)
           Cases.fetch None "gpu" Cases.linux_gpu Demo.w_empty w' 1 H1).
Defined.

(** ** The argument parser *)

Lemma append_not_empty (a b : string) : b <> "" -> a +:+ b <> "".
Proof.
  intros Hb Heq. apply (f_equal String.length) in Heq.
  rewrite length_append in Heq. destruct b; [done | simpl in Heq; lia].
Qed.

(** X19.  [error] never leaves quietly: whatever the program name and the
    message, even empty ones, it writes the line [prog: error: message] to
    the standard error stream, then the separator of 75 dashes, then the
    help text, and exits with status 2. *)
Theorem parser_error_prints_help_and_exits_2 (prog message : string) :
  PrintHelpBeforeLeaveArgumentParser.error prog message =
  ([ Stderr (prog +:+ ": error: " +:+ message
                  +:+ String "010"%char EmptyString);
     Stdout (str_mul "-" 75);
     PrintHelp ], 2%Z) /\
  String.length (str_mul "-" 75) = 75.
Proof.
  split; [|reflexivity].
  unfold PrintHelpBeforeLeaveArgumentParser.error,
         PrintHelpBeforeLeaveArgumentParser.exit.
  destruct (String.eqb_spec
              (prog +:+ ": error: " +:+ message
                    +:+ String "010"%char EmptyString) "") as [Heq|_];
    [|reflexivity].
  exfalso. revert Heq. apply append_not_empty. discriminate.
Qed.

(** ** What leaves its place *)

Lemma iteration_vanished `{Stages} (imgpath infile : string) (w w' : world)
    (st st' : locals) (q : string) (n : node) :
  iteration imgpath (w, st) infile = Returned (w', st') ->
  nodes w !! q = Some n ->
  is_Some (nodes w' !! q) \/
  (q = path_join imgpath [infile] /\ imgname st' = imgname st ++ [infile]).
Proof.
  intros Hit Hq.
  apply iteration_cases in Hit
    as [(n' & Hm & _ & _) | [(Hm & _ & _) |
        (w1 & fc & best & i & label & Hm & Hc & _ & _ & -> & Hmove)]].
  - left. apply (make_category_folders_kept _ _ _ _ _ _ Hm) in Hq. eauto.
  - left. apply (make_category_folders_kept _ _ _ _ _ _ Hm) in Hq. eauto.
  - apply (make_category_folders_kept _ _ _ _ _ _ Hm) in Hq.
    destruct (classify_file _ _ _ Hc) as [b Hb].
    destruct (move_file_nodes _ _ _ _ _ Hb Hmove) as (dst & _ & Hn).
    destruct (decide (q = path_join imgpath [infile])) as [->|Hne];
      [right; done|].
    left. rewrite Hn. destruct (decide (dst = q)) as [->|Hd].
    + rewrite lookup_insert_eq. eauto.
    + rewrite lookup_insert_ne, lookup_delete_ne by done. eauto.
Qed.

(** X20.  The per-entry loop takes nothing away except what it moves: a
    path that held a file or a directory before the loop still holds one
    after it, unless it is the path of an entry that got a success row. *)
Theorem only_moved_entries_leave_their_place `{Stages} (imgpath : string)
    (l : list string) (w w' : world) (st st' : locals) (q : string)
    (n : node) :
  for_infile imgpath l (w, st) = Returned (w', st') ->
  nodes w !! q = Some n ->
  is_Some (nodes w' !! q) \/
  exists e, e ∈ imgname st' /\ e ∈ l /\ q = path_join imgpath [e].
Proof.
  revert w st n. induction l as [|e l IH]; intros w st n; simpl.
  - intros [= <- <-] Hq. left. eauto.
  - destruct (iteration imgpath (w, st) e) as [[w1 st1]|] eqn:Ei; [|done].
    intros Hl Hq.
    destruct (iteration_vanished _ _ _ _ _ _ _ _ Ei Hq)
      as [[n1 Hn1] | [-> Hgrew]].
    + destruct (IH _ _ _ Hl Hn1) as [Hs | (e' & He' & Hin & ->)];
        [by left|].
      right. exists e'. split; [done|]. split; [by right | done].
    + right. exists e. split; [|split; [by left | done]].
      destruct (for_infile_imgname _ _ _ _ _ _ Hl) as (k & -> & _).
      rewrite Hgrew. apply elem_of_app. left. apply elem_of_app. right.
      by left.
Qed.

Lemma only_moved_entries_leave_their_place_witness :
  for_infile (H := Demo.stages) "root/d" ["a.jpg"; "b.png"; "c.bmp"]
             (Demo.w_scenario, init_locals)
    = Returned (Demo.w_rerun, Cases.st_scenario) /\
  nodes Demo.w_scenario !! "root/d/b.png" = Some (File "garbage") /\
  (is_Some (nodes Demo.w_rerun !! "root/d/b.png") \/
   exists e, e ∈ imgname Cases.st_scenario /\
             e ∈ ["a.jpg"; "b.png"; "c.bmp"] /\
             "root/d/b.png" = path_join "root/d" [e]).
Proof.
  assert (for_infile (H := Demo.stages) "root/d" ["a.jpg"; "b.png"; "c.bmp"]
                     (Demo.w_scenario, init_locals)
          = Returned (Demo.w_rerun, Cases.st_scenario)) as H1
    by (vm_compute; reflexivity).
  assert (nodes Demo.w_scenario !! "root/d/b.png" = Some (File "garbage"))
    as H2 by (vm_compute; reflexivity).
  split; [exact H1|]. split; [exact H2|].
  exact (only_moved_entries_leave_their_place (H := Demo.stages) "root/d"
           ["a.jpg"; "b.png"; "c.bmp"] Demo.w_scenario Demo.w_rerun
           init_locals Cases.st_scenario "root/d/b.png" (File "garbage")
           H1 H2).
Defined.
